(** * sol-paper-trader: the position-accounting engine of [src/App.tsx]

    A shallow embedding of the ledger state and of the state updaters that
    [App] passes to [setState] (lines 56-306 of the first component of
    [src/App.tsx]), followed by the properties of the specification.  With
    them come the win statistics, the handler of the sell form and the engine
    of the earlier component kept in the same file, with their properties.

    Numbers.  The engine is embedded twice.

    The first embedding takes a JavaScript [number] to be an exact rational
    ([Q]): every value is a finite number, [isFinite] is always true, and
    [+ - * /] do not round.  It carries the properties that are about the
    shape of the ledger and about which exit an updater takes: what a
    rejected updater leaves behind, the ids, the status of a position, the
    recorded series, and the scenarios of the specification, whose amounts are
    small integers.  Equality of computed amounts is stated there with [==]
    ([Qeq]); equality of whole states is Leibniz equality.

    The second embedding, module [Double], transcribes the same updaters with
    a [number] what it is in JavaScript, a binary64 float: sums, differences,
    products and quotients round to the nearest double, overflow to an
    infinity, and produce [NaN].  It carries the properties that are about
    amounts: how the balance moves, the average entry mark, the sign of the
    balance, the tolerance test of the snapshot recorder.  Equality of doubles
    is Leibniz equality of the values computed.

    Optional fields ([currentMarketCap?: number], [history?: ...]) are
    [option]s, [a ?? b] is [default b a].  The clock ([Date.now()],
    [new Date().toISOString()]) is an argument of the updater that reads it. *)

From Stdlib Require Import QArith Qabs Qminmax Lqa Lia List String Ascii DecimalString.
From Stdlib Require Import DecimalN DecimalPos.
From Stdlib Require Import ZArith Bool Floats.
From stdpp Require Import base list.
Import ListNotations.

Open Scope Q_scope.
Set Warnings "-register-all,-inexact-float".

(* ------------------------------------------------------------------------- *)
(** ** JavaScript operators on numbers and strings *)

Definition Qltb (x y : Q) : bool := if Qlt_le_dec x y then true else false.
Definition Qleb (x y : Q) : bool := Qle_bool x y.

Infix "<?" := Qltb (at level 70, no associativity) : Q_scope.
Infix "<=?" := Qleb (at level 70, no associativity) : Q_scope.

(** [isFinitePos n]: [typeof n === "number" && isFinite(n) && n > 0]. *)
Definition isFinitePos (n : Q) : bool := 0 <? n.

(** [String(n)] for a natural number. *)
Definition String_of (n : N) : string := NilZero.string_of_uint (N.to_uint n).

(** White space and line terminators ([WhiteSpace] and [LineTerminator] of
    ECMAScript: TAB, LF, VT, FF, CR, SP, NBSP, the other space separators,
    LS, PS and the byte order mark).  A [string] holds the UTF-8 encoding of
    the JavaScript string, so these are one, two or three bytes long. *)
Definition whiteSpace1 (a : ascii) : bool :=
  let a := N_of_ascii a in
  (N.leb 9 a && N.leb a 13) || N.eqb a 32.

(** U+00A0 *)
Definition whiteSpace2 (a b : ascii) : bool :=
  N.eqb (N_of_ascii a) 194 && N.eqb (N_of_ascii b) 160.

(** U+1680; U+2000 to U+200A, U+2028, U+2029, U+202F; U+205F; U+3000;
    U+FEFF *)
Definition whiteSpace3 (a b c : ascii) : bool :=
  let a := N_of_ascii a in
  let b := N_of_ascii b in
  let c := N_of_ascii c in
  (N.eqb a 225 && N.eqb b 154 && N.eqb c 128)
  || (N.eqb a 226 && N.eqb b 128
      && ((N.leb 128 c && N.leb c 138) || N.eqb c 168 || N.eqb c 169 || N.eqb c 175))
  || (N.eqb a 226 && N.eqb b 129 && N.eqb c 159)
  || (N.eqb a 227 && N.eqb b 128 && N.eqb c 128)
  || (N.eqb a 239 && N.eqb b 187 && N.eqb c 191).

Fixpoint trimStart (l : list ascii) : list ascii :=
  match l with
  | a :: l1 =>
      if whiteSpace1 a then trimStart l1
      else match l1 with
           | b :: l2 =>
               if whiteSpace2 a b then trimStart l2
               else match l2 with
                    | c :: l3 => if whiteSpace3 a b c then trimStart l3 else l
                    | [] => l
                    end
           | [] => l
           end
  | [] => []
  end.

(** The same from the end, on the bytes in reverse order. *)
Fixpoint trimEnd (l : list ascii) : list ascii :=
  match l with
  | c :: l1 =>
      if whiteSpace1 c then trimEnd l1
      else match l1 with
           | b :: l2 =>
               if whiteSpace2 b c then trimEnd l2
               else match l2 with
                    | a :: l3 => if whiteSpace3 a b c then trimEnd l3 else l
                    | [] => l
                    end
           | [] => l
           end
  | [] => []
  end.

(** [str.trim()] *)
Definition trim (str : string) : string :=
  string_of_list_ascii
    (rev (trimEnd (rev (trimStart (list_ascii_of_string str))))).

(* ------------------------------------------------------------------------- *)
(** ** Types *)

(** [{ t, balance, openValue }]; the field [t] is [t_] here, [t] being the
    name of the record type. *)
Module HistoryPoint.
Record t := mk { t_ : Z; balance : Q; openValue : Q }.
End HistoryPoint.

Inductive Status := open | sold.

Record Entry := mkEntry {
  id : string;
  name : string;
  entryMarketCap : Q;
  currentMarketCap : option Q;
  solInvested : Q;
  status : Status;
  cumulativeBuySOL : option Q;
  cumulativeSellAmount : option Q;
  cumulativeSellReturnedSOL : option Q;
  realizedPnl : option Q;
  sellMarketCap : option Q;
  solReturned : option Q;
  pnl : option Q;
  pnlPercent : option Q;
  soldAt : option string
}.

Record AppState := mkAppState {
  startingBalance : option Q;
  balance : Q;
  entries : list Entry;
  nextId : N;
  history : option (list HistoryPoint.t)
}.

(** The argument of [addEntry]. *)
Module NewEntry.
Record t := mk { name : string; entryMarketCap : Q; solInvested : Q }.
End NewEntry.

(** The argument of [editEntry]:
    [Partial<Pick<Entry, "name" | "entryMarketCap" | "solInvested">>]. *)
Module Updates.
Record t := mk {
  name : option string;
  entryMarketCap : option Q;
  solInvested : option Q
}.
End Updates.

(** How an updater left: it built a new state, or it took one of its early
    [return s] exits.  The exits carry the error kind of the specification;
    [InsufficientBalance], [InvalidSellAmount] and [NegativeBalance] are the
    exits that [alert], the other two are silent. *)
Inductive Rejection :=
| PositionNotFound
| PositionClosed
| InsufficientBalance
| InvalidSellAmount
| NegativeBalance.

Inductive Outcome := Applied | Rejected (why : Rejection).

Definition isOpen (e : Entry) : bool :=
  match status e with open => true | sold => false end.

(** [entries.findIndex(p)] together with [entries[idx]]: the first index whose
    entry satisfies [p] and that entry; [None] stands for [-1]. *)
Fixpoint findIndex (p : Entry -> bool) (l : list Entry) : option (nat * Entry) :=
  match l with
  | [] => None
  | e :: l' =>
      if p e then Some (0%nat, e)
      else match findIndex p l' with
           | Some (i, x) => Some (S i, x)
           | None => None
           end
  end.

Definition hasId (i : string) (e : Entry) : bool := String.eqb (id e) i.

(* ------------------------------------------------------------------------- *)
(** ** Persistence: [loadState] *)

(** A value produced by [JSON.parse]. *)
Inductive json :=
| JNull
| JBool (b : bool)
| JNum (n : Q)
| JStr (s : string)
| JArr (items : list json)
| JObj (fields : list (string * json)).

(** Property access [v.key]; [None] is [undefined].  The own properties of an
    object are its fields (the last occurrence of a duplicated key wins in
    [JSON.parse]).  A primitive or an array has no [balance], the first
    property [loadState] reads, so what its other properties are is never
    looked at. *)
Fixpoint getField (key : string) (fields : list (string * json)) : option json :=
  match fields with
  | [] => None
  | (k, v) :: rest =>
      match getField key rest with
      | Some v' => Some v'
      | None => if String.eqb k key then Some v else None
      end
  end.

Definition prop (v : json) (key : string) : option json :=
  match v with
  | JObj fields => getField key fields
  | _ => None
  end.

(** [!v] for a parsed value. *)
Definition falsy (v : json) : bool :=
  match v with
  | JNull => true
  | JBool b => negb b
  | JNum n => Qeq_bool n 0
  | JStr s => String.eqb s EmptyString
  | JArr _ | JObj _ => false
  end.

(** What the storage hands back to [localStorage.getItem]. *)
Inductive Stored :=
| GetItemThrows
| Missing
| Raw (raw : string).

(** The state [loadState] returns.  The cast [as AppState] checks nothing, so
    apart from [balance] the fields hold whatever was parsed. *)
Record LoadedState := mkLoaded {
  l_startingBalance : json;
  l_balance : Q;
  l_entries : list json;
  l_nextId : json;
  l_history : list json
}.

Definition emptyLoaded : LoadedState :=
  {| l_startingBalance := JNull; l_balance := 0; l_entries := [];
     l_nextId := JNum 1; l_history := [] |}.

(** [x ?? d] on a property: [undefined] and [null] give [d]. *)
Definition nullish (x : option json) (d : json) : json :=
  match x with
  | None | Some JNull => d
  | Some v => v
  end.

Section Load.

(** [JSON.parse]; [None] when it throws. *)
Variable JSON_parse : string -> option json.

Definition loadState (st : Stored) : LoadedState :=
  match st with
  | GetItemThrows => emptyLoaded
  | Missing => emptyLoaded
  | Raw raw =>
      if String.eqb raw EmptyString then emptyLoaded
      else
        match JSON_parse raw with
        | None => emptyLoaded
        | Some parsed =>
            if falsy parsed then emptyLoaded
            else
              match prop parsed "balance" with
              | Some (JNum b) =>
                  match prop parsed "entries" with
                  | Some (JArr es) =>
                      let h := match prop parsed "history" with
                               | Some (JArr hs) => hs
                               | _ => []
                               end in
                      {| l_startingBalance :=
                           nullish (prop parsed "startingBalance") JNull;
                         l_balance := b;
                         l_entries := es;
                         l_nextId := nullish (prop parsed "nextId") (JNum 1);
                         l_history := h |}
                  | _ => emptyLoaded
                  end
              | _ => emptyLoaded
              end
        end
  end.

End Load.

(* ------------------------------------------------------------------------- *)
(** ** Snapshot recorder: [pushHistoryPoint] *)

(** The [reduce] over the open entries. *)
Definition openValueOf (l : list Entry) : Q :=
  fold_left
    (fun sum e =>
       let cur := default (entryMarketCap e) (currentMarketCap e) in
       let mult := if 0 <? cur then cur / entryMarketCap e else 1 in
       sum + solInvested e * mult)
    (List.filter isOpen l) 0.

(** [h[h.length - 1]] *)
Definition lastPoint (h : list HistoryPoint.t) : option HistoryPoint.t := last h.

Definition pushHistoryPoint (now : Z) (s : AppState) : AppState :=
  let openValue := openValueOf (entries s) in
  let h := default [] (history s) in
  let point := HistoryPoint.mk now (balance s) openValue in
  let unchanged :=
    match lastPoint h with
    | Some l =>
        (Qabs (HistoryPoint.balance l - HistoryPoint.balance point) <? 1e-9)
        && (Qabs (HistoryPoint.openValue l - HistoryPoint.openValue point) <? 1e-9)
    | None => false
    end in
  if unchanged then s
  else {| startingBalance := startingBalance s; balance := balance s;
          entries := entries s; nextId := nextId s;
          history := Some (h ++ [point]) |}.

(** The two halves of [pushHistoryPoint]: its test, and the state it builds
    when the test fails. *)
Definition historyUnchanged (s : AppState) : bool :=
  match lastPoint (default [] (history s)) with
  | Some l =>
      (Qabs (HistoryPoint.balance l - balance s) <? 1e-9)
      && (Qabs (HistoryPoint.openValue l - openValueOf (entries s)) <? 1e-9)
  | None => false
  end.

Definition appendPoint (now : Z) (s : AppState) : AppState :=
  {| startingBalance := startingBalance s; balance := balance s;
     entries := entries s; nextId := nextId s;
     history := Some (default [] (history s)
                      ++ [HistoryPoint.mk now (balance s) (openValueOf (entries s))]) |}.

(** The graph's reset button: [setState(s => ({ ...s, history: [] }))]. *)
Definition clearHistory (s : AppState) : AppState :=
  {| startingBalance := startingBalance s; balance := balance s;
     entries := entries s; nextId := nextId s; history := Some [] |}.

(* ------------------------------------------------------------------------- *)
(** ** Actions: the updaters of the engine *)

Definition withBalance (s : AppState) (b : Q) : AppState :=
  {| startingBalance := startingBalance s; balance := b; entries := entries s;
     nextId := nextId s; history := history s |}.

(** [{ ...s, balance: b, entries: es }] *)
Definition withBalanceEntries (s : AppState) (b : Q) (es : list Entry) : AppState :=
  {| startingBalance := startingBalance s; balance := b; entries := es;
     nextId := nextId s; history := history s |}.

Definition setStartingBalance (n : Q) : AppState :=
  {| startingBalance := Some n; balance := n; entries := []; nextId := 1%N;
     history := None |}.

Definition resetAll : AppState :=
  {| startingBalance := None; balance := 0; entries := []; nextId := 1%N;
     history := None |}.

Definition addEntry (data : NewEntry.t) (s : AppState) : AppState * Outcome :=
  if balance s <? NewEntry.solInvested data then (s, Rejected InsufficientBalance)
  else
    let entry :=
      {| id := String_of (nextId s);
         name := (let n := trim (NewEntry.name data) in
                  if String.eqb n EmptyString then "Entry #" ++ String_of (nextId s) else n)%string;
         entryMarketCap := NewEntry.entryMarketCap data;
         currentMarketCap := Some (NewEntry.entryMarketCap data);
         solInvested := NewEntry.solInvested data;
         status := open;
         cumulativeBuySOL := Some (NewEntry.solInvested data);
         cumulativeSellAmount := Some 0;
         cumulativeSellReturnedSOL := Some 0;
         realizedPnl := Some 0;
         sellMarketCap := None; solReturned := None; pnl := None;
         pnlPercent := None; soldAt := None |} in
    ({| startingBalance := startingBalance s;
        balance := balance s - NewEntry.solInvested data;
        entries := entry :: entries s;
        nextId := (nextId s + 1)%N;
        history := history s |}, Applied).

(** [{ ...e, currentMarketCap: mcap }] *)
Definition setCurrentMarketCap (e : Entry) (mcap : Q) : Entry :=
  {| id := id e; name := name e; entryMarketCap := entryMarketCap e;
     currentMarketCap := Some mcap;
     solInvested := solInvested e; status := status e;
     cumulativeBuySOL := cumulativeBuySOL e;
     cumulativeSellAmount := cumulativeSellAmount e;
     cumulativeSellReturnedSOL := cumulativeSellReturnedSOL e;
     realizedPnl := realizedPnl e; sellMarketCap := sellMarketCap e;
     solReturned := solReturned e; pnl := pnl e; pnlPercent := pnlPercent e;
     soldAt := soldAt e |}.

Definition updateCurrentMcap (i : string) (mcap : Q) (s : AppState)
  : AppState * Outcome :=
  match findIndex (hasId i) (entries s) with
  | None => (s, Rejected PositionNotFound)
  | Some (idx, e) =>
      let updated := setCurrentMarketCap e mcap in
      (withBalanceEntries s (balance s) (<[idx := updated]> (entries s)), Applied)
  end.

(** The entry [editEntry] writes back: [e] with the three fields that the
    assignments to [updated] may have changed. *)
Definition edited (e : Entry) (n : string) (mc inv : Q) : Entry :=
  {| id := id e; name := n; entryMarketCap := mc;
     currentMarketCap := currentMarketCap e;
     solInvested := inv; status := status e;
     cumulativeBuySOL := cumulativeBuySOL e;
     cumulativeSellAmount := cumulativeSellAmount e;
     cumulativeSellReturnedSOL := cumulativeSellReturnedSOL e;
     realizedPnl := realizedPnl e; sellMarketCap := sellMarketCap e;
     solReturned := solReturned e; pnl := pnl e; pnlPercent := pnlPercent e;
     soldAt := soldAt e |}.

Definition editEntry (i : string) (updates : Updates.t) (s : AppState)
  : AppState * Outcome :=
  match findIndex (hasId i) (entries s) with
  | None => (s, Rejected PositionNotFound)
  | Some (idx, e) =>
      if negb (isOpen e) then (s, Rejected PositionClosed)
      else
        let newName := match Updates.name updates with
                       | Some n => n
                       | None => name e
                       end in
        let newMcap := match Updates.entryMarketCap updates with
                       | Some mc => if isFinitePos mc then mc else entryMarketCap e
                       | None => entryMarketCap e
                       end in
        match Updates.solInvested updates with
        | Some inv =>
            let delta := inv - solInvested e in
            if (0 <? delta) && (balance s <? delta)
            then (s, Rejected InsufficientBalance)
            else
              let updated := edited e newName newMcap (Qmax 0 inv) in
              (withBalanceEntries s (balance s - delta)
                                  (<[idx := updated]> (entries s)), Applied)
        | None =>
            let updated := edited e newName newMcap (solInvested e) in
            (withBalanceEntries s (balance s)
                                (<[idx := updated]> (entries s)), Applied)
        end
  end.

Definition buyMore (i : string) (currentMcap buyAmountSOL : Q) (s : AppState)
  : AppState * Outcome :=
  match findIndex (hasId i) (entries s) with
  | None => (s, Rejected PositionNotFound)
  | Some (idx, e) =>
      if negb (isOpen e) then (s, Rejected PositionClosed)
      else if balance s <? buyAmountSOL then (s, Rejected InsufficientBalance)
      else
        let curInv := solInvested e in
        let newAvg := (entryMarketCap e * curInv + currentMcap * buyAmountSOL)
                      / (curInv + buyAmountSOL) in
        let updated :=
          {| id := id e; name := name e;
             entryMarketCap := newAvg;
             currentMarketCap := Some currentMcap;
             solInvested := curInv + buyAmountSOL;
             status := status e;
             cumulativeBuySOL := Some (default 0 (cumulativeBuySOL e) + buyAmountSOL);
             cumulativeSellAmount := cumulativeSellAmount e;
             cumulativeSellReturnedSOL := cumulativeSellReturnedSOL e;
             realizedPnl := realizedPnl e; sellMarketCap := sellMarketCap e;
             solReturned := solReturned e; pnl := pnl e;
             pnlPercent := pnlPercent e; soldAt := soldAt e |} in
        (withBalanceEntries s (balance s - buyAmountSOL)
                            (<[idx := updated]> (entries s)), Applied)
  end.

(** The closing branch of [partialSell]: [{ ...updated, status: "sold", ... }]. *)
Definition closePosition (updated : Entry) (nowIso : string) : Entry :=
  let pnl_ := default 0 (realizedPnl updated) in
  let totalBuys := default 0 (cumulativeBuySOL updated) in
  {| id := id updated; name := name updated;
     entryMarketCap := entryMarketCap updated;
     currentMarketCap := currentMarketCap updated;
     solInvested := 0;
     status := sold;
     cumulativeBuySOL := cumulativeBuySOL updated;
     cumulativeSellAmount := cumulativeSellAmount updated;
     cumulativeSellReturnedSOL := cumulativeSellReturnedSOL updated;
     realizedPnl := realizedPnl updated;
     sellMarketCap := sellMarketCap updated;
     solReturned := cumulativeSellReturnedSOL updated;
     pnl := Some pnl_;
     pnlPercent := Some (if 0 <? totalBuys then (pnl_ / totalBuys) * 100 else 0);
     soldAt := Some nowIso |}.

(** The three [const]s at the head of [partialSell]. *)
Definition sellMultiplier (e : Entry) (sellMcap : Q) : Q :=
  sellMcap / entryMarketCap e.
Definition sellReturned (e : Entry) (sellMcap sellAmountSOL : Q) : Q :=
  sellAmountSOL * sellMultiplier e sellMcap.
Definition sellRealized (e : Entry) (sellMcap sellAmountSOL : Q) : Q :=
  sellReturned e sellMcap sellAmountSOL - sellAmountSOL.

Definition partialSell (i : string) (sellMcap sellAmountSOL : Q) (nowIso : string)
  (s : AppState) : AppState * Outcome :=
  match findIndex (hasId i) (entries s) with
  | None => (s, Rejected PositionNotFound)
  | Some (idx, e) =>
      if negb (isOpen e) then (s, Rejected PositionClosed)
      else if (sellAmountSOL <=? 0) || (solInvested e <? sellAmountSOL)
      then (s, Rejected InvalidSellAmount)
      else
        let returned := sellReturned e sellMcap sellAmountSOL in
        let realized := sellRealized e sellMcap sellAmountSOL in
        let remaining := solInvested e - sellAmountSOL in
        let updated :=
          {| id := id e; name := name e;
             entryMarketCap := entryMarketCap e;
             currentMarketCap := Some sellMcap;
             solInvested := remaining;
             status := status e;
             cumulativeBuySOL := cumulativeBuySOL e;
             cumulativeSellAmount :=
               Some (default 0 (cumulativeSellAmount e) + sellAmountSOL);
             cumulativeSellReturnedSOL :=
               Some (default 0 (cumulativeSellReturnedSOL e) + returned);
             realizedPnl := Some (default 0 (realizedPnl e) + realized);
             sellMarketCap := Some sellMcap;
             solReturned := solReturned e; pnl := pnl e;
             pnlPercent := pnlPercent e; soldAt := soldAt e |} in
        let updated' :=
          if remaining <=? 0.0000001 then closePosition updated nowIso
          else updated in
        (withBalanceEntries s (balance s + returned)
                            (<[idx := updated']> (entries s)), Applied)
  end.

Definition adjustBalance (delta : Q) (s : AppState) : AppState * Outcome :=
  let next := balance s + delta in
  if next <? 0 then (s, Rejected NegativeBalance)
  else (withBalance s next, Applied).

(* ------------------------------------------------------------------------- *)
(** ** The engine as a transition system *)

Inductive Action :=
| SetStartingBalance (n : Q)
| AddEntry (data : NewEntry.t)
| UpdateCurrentMcap (i : string) (mcap : Q)
| EditEntry (i : string) (updates : Updates.t)
| BuyMore (i : string) (currentMcap buyAmountSOL : Q)
| PartialSell (i : string) (sellMcap sellAmountSOL : Q) (nowIso : string)
| AdjustBalance (delta : Q)
| ResetAll
| PushHistoryPoint (now : Z)
| ClearHistory.

Definition run (a : Action) (s : AppState) : AppState * Outcome :=
  match a with
  | SetStartingBalance n => (setStartingBalance n, Applied)
  | AddEntry data => addEntry data s
  | UpdateCurrentMcap i mcap => updateCurrentMcap i mcap s
  | EditEntry i updates => editEntry i updates s
  | BuyMore i m amt => buyMore i m amt s
  | PartialSell i m amt nowIso => partialSell i m amt nowIso s
  | AdjustBalance delta => adjustBalance delta s
  | ResetAll => (resetAll, Applied)
  | PushHistoryPoint now => (pushHistoryPoint now s, Applied)
  | ClearHistory => (clearHistory s, Applied)
  end.

Definition step (a : Action) (s : AppState) : AppState := fst (run a s).
Definition outcome (a : Action) (s : AppState) : Outcome := snd (run a s).

(** The arguments the forms let through to the engine ([isFinitePos] on the
    amounts and market caps they read).  [editEntry] and [adjustBalance] are
    given any argument: [editEntry] checks its own, and any finite delta is
    passed to [adjustBalance]. *)
Definition validArgs (a : Action) : Prop :=
  match a with
  | SetStartingBalance n => 0 < n
  | AddEntry data => 0 < NewEntry.entryMarketCap data /\ 0 < NewEntry.solInvested data
  | UpdateCurrentMcap _ mcap => 0 < mcap
  | BuyMore _ m amt => 0 < m /\ 0 < amt
  | PartialSell _ m _ _ => 0 < m
  | EditEntry _ _ | AdjustBalance _ | ResetAll | PushHistoryPoint _ | ClearHistory => True
  end.

(** An [editEntry] that leaves [solInvested] alone or sets it to a positive
    amount. *)
Definition positiveRevision (a : Action) : Prop :=
  match a with
  | EditEntry _ updates =>
      match Updates.solInvested updates with
      | Some v => 0 < v
      | None => True
      end
  | _ => True
  end.

(** What [loadState] returns on an empty storage, as an [AppState]. *)
Definition initialState : AppState :=
  {| startingBalance := None; balance := 0; entries := []; nextId := 1%N;
     history := Some [] |}.

(** The states the engine reaches from [initialState] with actions allowed by
    [ok]. *)
Inductive reachableBy (ok : Action -> Prop) : AppState -> Prop :=
| reach_init : reachableBy ok initialState
| reach_step a s : reachableBy ok s -> ok a -> reachableBy ok (step a s).

Definition reachable : AppState -> Prop := reachableBy validArgs.

Definition carefulArgs (a : Action) : Prop := validArgs a /\ positiveRevision a.

(** Running a list of actions, oldest first. *)
Definition runAll (acts : list Action) (s : AppState) : AppState :=
  fold_left (fun st a => step a st) acts s.

(* ------------------------------------------------------------------------- *)
(** ** Invariants of the ledger *)

Definition wfEntry (e : Entry) : Prop :=
  0 < entryMarketCap e /\ 0 <= solInvested e
  /\ (status e = sold -> solInvested e = 0).

Definition wfState (s : AppState) : Prop :=
  0 <= balance s /\ Forall wfEntry (entries s).

(** An open position holds capital. *)
Definition openFunded (e : Entry) : Prop := status e = open -> 0 < solInvested e.

(** An optional number is present and equal to [q]. *)
Definition isNum (o : option Q) (q : Q) : Prop :=
  match o with
  | Some x => x == q
  | None => False
  end.

(* ------------------------------------------------------------------------- *)
(** ** The scenarios of the specification *)

Definition scenarioClock : string := "2025-01-01T00:00:00.000Z".

Definition scenarioActions : list Action :=
  [ SetStartingBalance 10;
    AddEntry (NewEntry.mk "X" 1000 2);
    BuyMore "1" 2000 2;
    PartialSell "1" 3000 4 scenarioClock ].

Definition scenarioA : AppState := runAll (take 2 scenarioActions) initialState.
Definition scenarioB : AppState := runAll (take 3 scenarioActions) initialState.
Definition scenarioC : AppState := runAll scenarioActions initialState.

(** Scenario A followed by a revision of the position to no capital, with the
    arguments the edit form accepts. *)
Definition scenarioRevised : AppState :=
  step (EditEntry "1" (Updates.mk (Some "X"%string) (Some 1000) (Some 0))) scenarioA.

(** A stand-in for [JSON.parse] on a storage that holds one older save, a
    state written before [history] existed; the text of the save is
    abbreviated to its key. *)
Definition olderSave : string := "sol-paper-trading-state".

Definition olderSaveParsed : json :=
  JObj [ ("startingBalance"%string, JNum 10); ("balance"%string, JNum 8);
         ("entries"%string, JArr []); ("nextId"%string, JNum 2) ].

Definition parseOlderSave (raw : string) : option json :=
  if String.eqb raw olderSave then Some olderSaveParsed else None.

(* ------------------------------------------------------------------------- *)
(** ** Aggregate metrics: [totals], [winStats] *)

Definition isSold (e : Entry) : bool :=
  match status e with sold => true | open => false end.

Definition openEntries (s : AppState) : list Entry := List.filter isOpen (entries s).
Definition soldEntries (s : AppState) : list Entry := List.filter isSold (entries s).

(** The mark-to-market value of one position, the body of the [reduce] of
    [totals.investedOpen]. *)
Definition markedValue (e : Entry) : Q :=
  let cur := default (entryMarketCap e) (currentMarketCap e) in
  let mult := if 0 <? cur then cur / entryMarketCap e else 1 in
  solInvested e * mult.

Record Totals := mkTotals { investedOpen : Q; realized : Q }.

Definition totals (s : AppState) : Totals :=
  {| investedOpen := fold_left (fun acc e => acc + markedValue e) (openEntries s) 0;
     realized := fold_left (fun acc e => acc + default 0 (pnl e)) (soldEntries s) 0 |}.

(** A count as a number. *)
Definition count (n : nat) : Q := inject_Z (Z.of_nat n).

Record WinStats := mkWinStats { closed : nat; wins : nat; losses : Z; winRate : Q }.

Definition winStats (s : AppState) : WinStats :=
  let closed_ := length (soldEntries s) in
  let wins_ := length (List.filter (fun e => 0 <? default 0 (pnl e)) (soldEntries s)) in
  {| closed := closed_;
     wins := wins_;
     losses := (Z.of_nat closed_ - Z.of_nat wins_)%Z;
     winRate := if (0 <? closed_)%nat then (count wins_ / count closed_) * 100 else 0 |}.

(* ------------------------------------------------------------------------- *)
(** ** The sell form: the handler of "Confirm Sell" *)

(** The handler, after [Number(...)] has read the two inputs.  [entry] is the
    entry the modal was rendered for, [state.entries.find(e => e.id ===
    sellingId)].  The result is the state after the two updaters it queues,
    or the state as it was together with the text it alerts. *)
Definition confirmSell (entry : Entry) (sellingId : string) (m val : Q)
  (nowIso : string) (s : AppState) : AppState * option string :=
  if m <=? 0 then (s, Some "Market cap must be a positive number."%string)
  else if val <=? 0 then (s, Some "Sell amount must be a positive number."%string)
  else
    let mult := m / entryMarketCap entry in
    let baseToSell := val / mult in
    if solInvested entry + 1e-12 <? baseToSell
    then (s, Some "Sell amount exceeds position."%string)
    else
      let s1 := fst (updateCurrentMcap sellingId m s) in
      (fst (partialSell sellingId m baseToSell nowIso s1), None).

(* ------------------------------------------------------------------------- *)
(** ** The list of positions *)

(** The actions that start the ledger over. *)
Definition wipes (a : Action) : bool :=
  match a with
  | SetStartingBalance _ | ResetAll => true
  | _ => false
  end.

(** The ids in use are those handed out so far, each once. *)
Definition idsFresh (s : AppState) : Prop :=
  (1 <= nextId s)%N
  /\ NoDup (id <$> entries s)
  /\ Forall (fun e => exists k, (1 <= k < nextId s)%N /\ id e = String_of k) (entries s).

(** What an action does to the list of positions: nothing, a new open position
    in front, or one position replaced by one with the same [id]. *)
Inductive entriesStep (s : AppState) (s' : AppState) : Prop :=
| entries_kept : entries s' = entries s -> nextId s' = nextId s -> entriesStep s s'
| entries_opened e :
    entries s' = e :: entries s -> id e = String_of (nextId s) ->
    nextId s' = (nextId s + 1)%N -> status e = open ->
    entriesStep s s'
| entries_replaced i idx e e' :
    findIndex (hasId i) (entries s) = Some (idx, e) ->
    entries s' = <[idx := e']> (entries s) -> id e' = id e ->
    nextId s' = nextId s ->
    (status e = sold -> exists mcap, e' = setCurrentMarketCap e mcap) ->
    entriesStep s s'.

(* ------------------------------------------------------------------------- *)
(** ** The earlier component (storage key [sol-paper-trading-state-v1])

    The second component of [src/App.tsx] (from line 1143) is the engine
    before DCA: a position is bought once and can be deleted while it is open
    by [deleteOpenEntry]. *)

Module V1.

Record Entry := mkEntry {
  id : string;
  name : string;
  entryMarketCap : Q;
  solInvested : Q;
  status : Status;
  sellMarketCap : option Q;
  multiplier : option Q;
  solReturned : option Q;
  pnl : option Q;
  pnlPercent : option Q;
  soldAt : option string
}.

Record AppState := mkAppState {
  startingBalance : option Q;
  balance : Q;
  entries : list Entry;
  nextId : N
}.

Definition isOpen (e : Entry) : bool :=
  match status e with open => true | sold => false end.

Definition hasId (i : string) (e : Entry) : bool := String.eqb (id e) i.

(** [entries.findIndex(p)] with [entries[idx]], or [entries.find(p)]. *)
Fixpoint findIndex (p : Entry -> bool) (l : list Entry) : option (nat * Entry) :=
  match l with
  | [] => None
  | e :: l' =>
      if p e then Some (0%nat, e)
      else match findIndex p l' with
           | Some (i, x) => Some (S i, x)
           | None => None
           end
  end.

Definition addEntry (data : NewEntry.t) (s : AppState) : AppState * Outcome :=
  if balance s <? NewEntry.solInvested data then (s, Rejected InsufficientBalance)
  else
    let entry :=
      {| id := String_of (nextId s);
         name := (let n := trim (NewEntry.name data) in
                  if String.eqb n EmptyString
                  then "Entry #" ++ String_of (nextId s) else n)%string;
         entryMarketCap := NewEntry.entryMarketCap data;
         solInvested := NewEntry.solInvested data;
         status := open;
         sellMarketCap := None; multiplier := None; solReturned := None;
         pnl := None; pnlPercent := None; soldAt := None |} in
    ({| startingBalance := startingBalance s;
        balance := balance s - NewEntry.solInvested data;
        entries := entry :: entries s;
        nextId := (nextId s + 1)%N |}, Applied).

Definition deleteOpenEntry (i : string) (s : AppState) : AppState * Outcome :=
  match findIndex (hasId i) (entries s) with
  | None => (s, Rejected PositionNotFound)
  | Some (_, e) =>
      if negb (isOpen e) then (s, Rejected PositionClosed)
      else
        ({| startingBalance := startingBalance s;
            balance := balance s + solInvested e;
            entries := List.filter (fun x => negb (hasId i x)) (entries s);
            nextId := nextId s |}, Applied)
  end.

End V1.

(* ------------------------------------------------------------------------- *)
(** ** The engine over double-precision numbers

    The same updaters, transcribed again with every [number] a binary64
    float and [+ - * /], the comparisons, [Math.abs], [Math.max] and
    [isFinite] those of IEEE 754 as JavaScript has them: the operations round
    to nearest, overflow to an infinity, and every comparison with [NaN] is
    false.  The strings, the outcome of an updater and the clock are as
    above. *)

Module Double.

Local Open Scope float_scope.

(** [isFinite(n)] for a number. *)
Definition isFinite (n : float) : bool := is_finite n.

(** [isFinitePos n]: [typeof n === "number" && isFinite(n) && n > 0]. *)
Definition isFinitePos (n : float) : bool := isFinite n && (0 <? n).

(** [Math.abs(x)] *)
Definition Math_abs (x : float) : float := abs x.

(** [Math.max(a, b)]: [NaN] when either is, and [+0] above [-0]. *)
Definition Math_max (a b : float) : float :=
  if is_nan a || is_nan b then nan
  else if a <? b then b
  else if b <? a then a
  else if get_sign a then b else a.

Module HistoryPoint.
Record t := mk { t_ : Z; balance : float; openValue : float }.
End HistoryPoint.

Record Entry := mkEntry {
  id : string;
  name : string;
  entryMarketCap : float;
  currentMarketCap : option float;
  solInvested : float;
  status : Status;
  cumulativeBuySOL : option float;
  cumulativeSellAmount : option float;
  cumulativeSellReturnedSOL : option float;
  realizedPnl : option float;
  sellMarketCap : option float;
  solReturned : option float;
  pnl : option float;
  pnlPercent : option float;
  soldAt : option string
}.

Record AppState := mkAppState {
  startingBalance : option float;
  balance : float;
  entries : list Entry;
  nextId : N;
  history : option (list HistoryPoint.t)
}.

Module NewEntry.
Record t := mk { name : string; entryMarketCap : float; solInvested : float }.
End NewEntry.

Module Updates.
Record t := mk {
  name : option string;
  entryMarketCap : option float;
  solInvested : option float
}.
End Updates.

Definition isOpen (e : Entry) : bool :=
  match status e with open => true | sold => false end.

Fixpoint findIndex (p : Entry -> bool) (l : list Entry) : option (nat * Entry) :=
  match l with
  | [] => None
  | e :: l' =>
      if p e then Some (0%nat, e)
      else match findIndex p l' with
           | Some (i, x) => Some (S i, x)
           | None => None
           end
  end.

Definition hasId (i : string) (e : Entry) : bool := String.eqb (id e) i.

(** The [reduce] over the open entries of [pushHistoryPoint]. *)
Definition openValueOf (l : list Entry) : float :=
  fold_left
    (fun sum e =>
       let cur := default (entryMarketCap e) (currentMarketCap e) in
       let mult := if 0 <? cur then cur / entryMarketCap e else 1 in
       sum + solInvested e * mult)
    (List.filter isOpen l) 0.

(** The test of [pushHistoryPoint]: there is a last point, and the balance and
    the open value are within [1e-9] of it. *)
Definition historyUnchanged (s : AppState) : bool :=
  match last (default [] (history s)) with
  | Some l =>
      (Math_abs (HistoryPoint.balance l - balance s) <? 1e-9)
      && (Math_abs (HistoryPoint.openValue l - openValueOf (entries s)) <? 1e-9)
  | None => false
  end.

(** [{ ...s, history: [...h, point] }] *)
Definition appendPoint (now : Z) (s : AppState) : AppState :=
  {| startingBalance := startingBalance s; balance := balance s;
     entries := entries s; nextId := nextId s;
     history := Some (default [] (history s)
                      ++ [HistoryPoint.mk now (balance s) (openValueOf (entries s))]) |}.

Definition pushHistoryPoint (now : Z) (s : AppState) : AppState :=
  if historyUnchanged s then s else appendPoint now s.

Definition clearHistory (s : AppState) : AppState :=
  {| startingBalance := startingBalance s; balance := balance s;
     entries := entries s; nextId := nextId s; history := Some [] |}.

Definition withBalance (s : AppState) (b : float) : AppState :=
  {| startingBalance := startingBalance s; balance := b; entries := entries s;
     nextId := nextId s; history := history s |}.

Definition withBalanceEntries (s : AppState) (b : float) (es : list Entry) : AppState :=
  {| startingBalance := startingBalance s; balance := b; entries := es;
     nextId := nextId s; history := history s |}.

Definition setStartingBalance (n : float) : AppState :=
  {| startingBalance := Some n; balance := n; entries := []; nextId := 1%N;
     history := None |}.

Definition resetAll : AppState :=
  {| startingBalance := None; balance := 0; entries := []; nextId := 1%N;
     history := None |}.

Definition addEntry (data : NewEntry.t) (s : AppState) : AppState * Outcome :=
  if balance s <? NewEntry.solInvested data then (s, Rejected InsufficientBalance)
  else
    let entry :=
      {| id := String_of (nextId s);
         name := (let n := trim (NewEntry.name data) in
                  if String.eqb n EmptyString then "Entry #" ++ String_of (nextId s) else n)%string;
         entryMarketCap := NewEntry.entryMarketCap data;
         currentMarketCap := Some (NewEntry.entryMarketCap data);
         solInvested := NewEntry.solInvested data;
         status := open;
         cumulativeBuySOL := Some (NewEntry.solInvested data);
         cumulativeSellAmount := Some 0;
         cumulativeSellReturnedSOL := Some 0;
         realizedPnl := Some 0;
         sellMarketCap := None; solReturned := None; pnl := None;
         pnlPercent := None; soldAt := None |} in
    ({| startingBalance := startingBalance s;
        balance := balance s - NewEntry.solInvested data;
        entries := entry :: entries s;
        nextId := (nextId s + 1)%N;
        history := history s |}, Applied).

Definition setCurrentMarketCap (e : Entry) (mcap : float) : Entry :=
  {| id := id e; name := name e; entryMarketCap := entryMarketCap e;
     currentMarketCap := Some mcap;
     solInvested := solInvested e; status := status e;
     cumulativeBuySOL := cumulativeBuySOL e;
     cumulativeSellAmount := cumulativeSellAmount e;
     cumulativeSellReturnedSOL := cumulativeSellReturnedSOL e;
     realizedPnl := realizedPnl e; sellMarketCap := sellMarketCap e;
     solReturned := solReturned e; pnl := pnl e; pnlPercent := pnlPercent e;
     soldAt := soldAt e |}.

Definition updateCurrentMcap (i : string) (mcap : float) (s : AppState)
  : AppState * Outcome :=
  match findIndex (hasId i) (entries s) with
  | None => (s, Rejected PositionNotFound)
  | Some (idx, e) =>
      let updated := setCurrentMarketCap e mcap in
      (withBalanceEntries s (balance s) (<[idx := updated]> (entries s)), Applied)
  end.

Definition edited (e : Entry) (n : string) (mc inv : float) : Entry :=
  {| id := id e; name := n; entryMarketCap := mc;
     currentMarketCap := currentMarketCap e;
     solInvested := inv; status := status e;
     cumulativeBuySOL := cumulativeBuySOL e;
     cumulativeSellAmount := cumulativeSellAmount e;
     cumulativeSellReturnedSOL := cumulativeSellReturnedSOL e;
     realizedPnl := realizedPnl e; sellMarketCap := sellMarketCap e;
     solReturned := solReturned e; pnl := pnl e; pnlPercent := pnlPercent e;
     soldAt := soldAt e |}.

(** The [solInvested] that [editEntry] acts on:
    [typeof updates.solInvested === "number" && isFinite(updates.solInvested)]. *)
Definition revisedAmount (updates : Updates.t) : option float :=
  match Updates.solInvested updates with
  | Some inv => if isFinite inv then Some inv else None
  | None => None
  end.

Definition editEntry (i : string) (updates : Updates.t) (s : AppState)
  : AppState * Outcome :=
  match findIndex (hasId i) (entries s) with
  | None => (s, Rejected PositionNotFound)
  | Some (idx, e) =>
      if negb (isOpen e) then (s, Rejected PositionClosed)
      else
        let newName := match Updates.name updates with
                       | Some n => n
                       | None => name e
                       end in
        let newMcap := match Updates.entryMarketCap updates with
                       | Some mc => if isFinitePos mc then mc else entryMarketCap e
                       | None => entryMarketCap e
                       end in
        match revisedAmount updates with
        | Some inv =>
            let delta := inv - solInvested e in
            if (0 <? delta) && (balance s <? delta)
            then (s, Rejected InsufficientBalance)
            else
              let updated := edited e newName newMcap (Math_max 0 inv) in
              (withBalanceEntries s (balance s - delta)
                                  (<[idx := updated]> (entries s)), Applied)
        | None =>
            let updated := edited e newName newMcap (solInvested e) in
            (withBalanceEntries s (balance s)
                                (<[idx := updated]> (entries s)), Applied)
        end
  end.

(** [newAvg] of [buyMore]. *)
Definition newAverage (e : Entry) (currentMcap buyAmountSOL : float) : float :=
  (entryMarketCap e * solInvested e + currentMcap * buyAmountSOL)
  / (solInvested e + buyAmountSOL).

Definition buyMore (i : string) (currentMcap buyAmountSOL : float) (s : AppState)
  : AppState * Outcome :=
  match findIndex (hasId i) (entries s) with
  | None => (s, Rejected PositionNotFound)
  | Some (idx, e) =>
      if negb (isOpen e) then (s, Rejected PositionClosed)
      else if balance s <? buyAmountSOL then (s, Rejected InsufficientBalance)
      else
        let curInv := solInvested e in
        let newAvg := newAverage e currentMcap buyAmountSOL in
        let updated :=
          {| id := id e; name := name e;
             entryMarketCap := newAvg;
             currentMarketCap := Some currentMcap;
             solInvested := curInv + buyAmountSOL;
             status := status e;
             cumulativeBuySOL := Some (default 0 (cumulativeBuySOL e) + buyAmountSOL);
             cumulativeSellAmount := cumulativeSellAmount e;
             cumulativeSellReturnedSOL := cumulativeSellReturnedSOL e;
             realizedPnl := realizedPnl e; sellMarketCap := sellMarketCap e;
             solReturned := solReturned e; pnl := pnl e;
             pnlPercent := pnlPercent e; soldAt := soldAt e |} in
        (withBalanceEntries s (balance s - buyAmountSOL)
                            (<[idx := updated]> (entries s)), Applied)
  end.

(** The closing branch of [partialSell]. *)
Definition closePosition (updated : Entry) (nowIso : string) : Entry :=
  let pnl_ := default 0 (realizedPnl updated) in
  let totalBuys := default 0 (cumulativeBuySOL updated) in
  {| id := id updated; name := name updated;
     entryMarketCap := entryMarketCap updated;
     currentMarketCap := currentMarketCap updated;
     solInvested := 0;
     status := sold;
     cumulativeBuySOL := cumulativeBuySOL updated;
     cumulativeSellAmount := cumulativeSellAmount updated;
     cumulativeSellReturnedSOL := cumulativeSellReturnedSOL updated;
     realizedPnl := realizedPnl updated;
     sellMarketCap := sellMarketCap updated;
     solReturned := cumulativeSellReturnedSOL updated;
     pnl := Some pnl_;
     pnlPercent := Some (if 0 <? totalBuys then (pnl_ / totalBuys) * 100 else 0);
     soldAt := Some nowIso |}.

(** [returned] of [partialSell]: [sellAmountSOL * (sellMcap / e.entryMarketCap)]. *)
Definition sellReturned (e : Entry) (sellMcap sellAmountSOL : float) : float :=
  sellAmountSOL * (sellMcap / entryMarketCap e).

Definition partialSell (i : string) (sellMcap sellAmountSOL : float) (nowIso : string)
  (s : AppState) : AppState * Outcome :=
  match findIndex (hasId i) (entries s) with
  | None => (s, Rejected PositionNotFound)
  | Some (idx, e) =>
      if negb (isOpen e) then (s, Rejected PositionClosed)
      else if (sellAmountSOL <=? 0) || (solInvested e <? sellAmountSOL)
      then (s, Rejected InvalidSellAmount)
      else
        let returned := sellReturned e sellMcap sellAmountSOL in
        let realized := returned - sellAmountSOL in
        let remaining := solInvested e - sellAmountSOL in
        let updated :=
          {| id := id e; name := name e;
             entryMarketCap := entryMarketCap e;
             currentMarketCap := Some sellMcap;
             solInvested := remaining;
             status := status e;
             cumulativeBuySOL := cumulativeBuySOL e;
             cumulativeSellAmount :=
               Some (default 0 (cumulativeSellAmount e) + sellAmountSOL);
             cumulativeSellReturnedSOL :=
               Some (default 0 (cumulativeSellReturnedSOL e) + returned);
             realizedPnl := Some (default 0 (realizedPnl e) + realized);
             sellMarketCap := Some sellMcap;
             solReturned := solReturned e; pnl := pnl e;
             pnlPercent := pnlPercent e; soldAt := soldAt e |} in
        let updated' :=
          if remaining <=? 0.0000001 then closePosition updated nowIso
          else updated in
        (withBalanceEntries s (balance s + returned)
                            (<[idx := updated']> (entries s)), Applied)
  end.

Definition adjustBalance (delta : float) (s : AppState) : AppState * Outcome :=
  let next := balance s + delta in
  if next <? 0 then (s, Rejected NegativeBalance)
  else (withBalance s next, Applied).

Inductive Action :=
| SetStartingBalance (n : float)
| AddEntry (data : NewEntry.t)
| UpdateCurrentMcap (i : string) (mcap : float)
| EditEntry (i : string) (updates : Updates.t)
| BuyMore (i : string) (currentMcap buyAmountSOL : float)
| PartialSell (i : string) (sellMcap sellAmountSOL : float) (nowIso : string)
| AdjustBalance (delta : float)
| ResetAll
| PushHistoryPoint (now : Z)
| ClearHistory.

Definition run (a : Action) (s : AppState) : AppState * Outcome :=
  match a with
  | SetStartingBalance n => (setStartingBalance n, Applied)
  | AddEntry data => addEntry data s
  | UpdateCurrentMcap i mcap => updateCurrentMcap i mcap s
  | EditEntry i updates => editEntry i updates s
  | BuyMore i m amt => buyMore i m amt s
  | PartialSell i m amt nowIso => partialSell i m amt nowIso s
  | AdjustBalance delta => adjustBalance delta s
  | ResetAll => (resetAll, Applied)
  | PushHistoryPoint now => (pushHistoryPoint now s, Applied)
  | ClearHistory => (clearHistory s, Applied)
  end.

Definition step (a : Action) (s : AppState) : AppState := fst (run a s).
Definition outcome (a : Action) (s : AppState) : Outcome := snd (run a s).

(** The arguments the forms let through to the engine: [isFinitePos] on the
    amounts and market caps they read.  [editEntry], [adjustBalance] and the
    amount of [partialSell] are given any number, [NaN] and the infinities
    included. *)
Definition validArgs (a : Action) : Prop :=
  match a with
  | SetStartingBalance n => isFinitePos n = true
  | AddEntry data =>
      isFinitePos (NewEntry.entryMarketCap data) = true
      /\ isFinitePos (NewEntry.solInvested data) = true
  | UpdateCurrentMcap _ mcap => isFinitePos mcap = true
  | BuyMore _ m amt => isFinitePos m = true /\ isFinitePos amt = true
  | PartialSell _ m _ _ => isFinitePos m = true
  | EditEntry _ _ | AdjustBalance _ | ResetAll | PushHistoryPoint _ | ClearHistory => True
  end.

Definition initialState : AppState :=
  {| startingBalance := None; balance := 0; entries := []; nextId := 1%N;
     history := Some [] |}.

Inductive reachable : AppState -> Prop :=
| reach_init : reachable initialState
| reach_step a s : reachable s -> validArgs a -> reachable (step a s).

Definition runAll (acts : list Action) (s : AppState) : AppState :=
  fold_left (fun st a => step a st) acts s.

(** Runs with the arguments the forms accept that show the arithmetic of
    doubles: amounts that are not binary fractions, and amounts near the
    largest double. *)
Definition tenStart : AppState := runAll [ SetStartingBalance 10 ] initialState.

Definition tenthActions : list Action :=
  [ SetStartingBalance 10;
    AddEntry (NewEntry.mk "X" 1000 0.1) ].

(** A balance of 10 and one open position of 0.1 bought at mark 1000. *)
Definition tenthOpened : AppState := runAll tenthActions initialState.

(** ... then 0.2 more, bought at the same mark. *)
Definition tenthBought : AppState := step (BuyMore "1" 1000 0.2) tenthOpened.

(** ... or the 0.1 sold at mark 3000, which closes the position. *)
Definition tenthSold : AppState :=
  step (PartialSell "1" 3000 0.1 "2025-01-01T00:00:00.000Z") tenthOpened.

(** A balance of 8 and one open position of 2. *)
Definition twoOpened : AppState :=
  runAll [ SetStartingBalance 10; AddEntry (NewEntry.mk "X" 1000 2) ] initialState.

Definition overflowActions : list Action :=
  [ SetStartingBalance 1e308;
    AddEntry (NewEntry.mk "X" 1000 1e308);
    AdjustBalance 1e308;
    BuyMore "1" 1000 1e308;
    PartialSell "1" 1000 1 "2025-01-01T00:00:00.000Z" ].

Definition overflowState : AppState := runAll overflowActions initialState.

(** A balance of [1e308 + 1e308], which is [Infinity]. *)
Definition infiniteBalance : AppState :=
  runAll [ SetStartingBalance 1e308; AdjustBalance 1e308 ] initialState.

(** A number whose sign bit is [sign], or [NaN]. *)
Definition signed (sign : bool) (x : spec_float) : Prop :=
  match x with
  | S754_nan => True
  | S754_zero s' | S754_infinity s' | S754_finite s' _ _ => s' = sign
  end.

(** [+0], a positive number, [+Infinity] or [NaN]: never [-0] and never a
    negative number. *)
Definition unsigned (x : float) : Prop := signed false (Prim2SF x).

(** The invariant of the ledger that survives rounding and overflow: the
    balance is not below 0 and no position has a negative (or [-0]) average
    entry mark or principal. *)
Definition soundEntry (e : Entry) : Prop :=
  unsigned (entryMarketCap e) /\ unsigned (solInvested e).

Definition sound (s : AppState) : Prop :=
  (balance s <? 0) = false /\ Forall soundEntry (entries s).

(** A sold position carries the closing figures of [partialSell]. *)
Definition closingFigures (e : Entry) : Prop :=
  status e = sold ->
  solInvested e = 0
  /\ pnl e = Some (default 0 (realizedPnl e))
  /\ solReturned e = cumulativeSellReturnedSOL e
  /\ pnlPercent e
     = Some (if 0 <? default 0 (cumulativeBuySOL e)
             then (default 0 (realizedPnl e) / default 0 (cumulativeBuySOL e)) * 100
             else 0)
  /\ soldAt e <> None
  /\ sellMarketCap e <> None.

End Double.

(* ------------------------------------------------------------------------- *)
(** ** Comparisons and look-up *)

Lemma Qltb_true (x y : Q) : (x <? y) = true <-> x < y.
Proof.
  unfold Qltb. destruct (Qlt_le_dec x y) as [H | H]; split; intros; try easy.
  exfalso. apply (Qlt_not_le x y); assumption.
Qed.

Lemma Qltb_false (x y : Q) : (x <? y) = false <-> y <= x.
Proof.
  unfold Qltb. destruct (Qlt_le_dec x y) as [H | H]; split; intros; try easy.
  exfalso. apply (Qlt_not_le x y); assumption.
Qed.

Lemma Qleb_true (x y : Q) : (x <=? y) = true <-> x <= y.
Proof. apply Qle_bool_iff. Qed.

Lemma Qleb_false (x y : Q) : (x <=? y) = false <-> y < x.
Proof.
  unfold Qleb. split; intros H.
  - apply Qnot_le_lt. intros Hle. apply Qle_bool_iff in Hle. congruence.
  - destruct (Qle_bool x y) eqn:E; [|reflexivity].
    apply Qle_bool_iff in E. exfalso. apply (Qlt_not_le y x); assumption.
Qed.

(** Turn the tests of an updater into (in)equalities of the context. *)
Ltac tests :=
  repeat match goal with
    | H : (_ && _)%bool = true |- _ => apply andb_true_iff in H; destruct H
    | H : (_ || _)%bool = false |- _ => apply orb_false_iff in H; destruct H
    | H : (_ <? _) = true |- _ => apply Qltb_true in H
    | H : (_ <? _) = false |- _ => apply Qltb_false in H
    | H : (_ <=? _) = true |- _ => apply Qleb_true in H
    | H : (_ <=? _) = false |- _ => apply Qleb_false in H
    | H : isFinitePos _ = true |- _ => apply Qltb_true in H
    | H : isFinitePos _ = false |- _ => apply Qltb_false in H
    end.

Lemma findIndex_Some p l i e :
  findIndex p l = Some (i, e) -> l !! i = Some e /\ p e = true.
Proof.
  revert i. induction l as [|x l IH]; intros i; simpl; [discriminate|].
  destruct (p x) eqn:Hp.
  - intros [= <- <-]. auto.
  - destruct (findIndex p l) as [[j y]|]; [|discriminate].
    intros [= <- <-]. apply IH. reflexivity.
Qed.

Lemma findIndex_elem p l i e : findIndex p l = Some (i, e) -> e ∈ l.
Proof. intros H. apply findIndex_Some in H as [H _]. eapply list_elem_of_lookup_2, H. Qed.

Lemma isOpen_status e : isOpen e = true <-> status e = open.
Proof. unfold isOpen. destruct (status e); split; congruence. Qed.

Lemma Qdiv_pos (a b : Q) : 0 < a -> 0 < b -> 0 < a / b.
Proof. intros Ha Hb. apply Qlt_shift_div_l; [assumption|]. lra. Qed.

Lemma Qmax_0_nonneg (x : Q) : 0 <= Qmax 0 x.
Proof. apply Q.le_max_l. Qed.

(* ------------------------------------------------------------------------- *)
(** ** The updaters keep the ledger well formed *)

Lemma wfState_replace s b idx e' :
  wfState s -> 0 <= b -> wfEntry e' ->
  wfState (withBalanceEntries s b (<[idx := e']> (entries s))).
Proof.
  intros [_ Hes] Hb He. split; [exact Hb|]. simpl. apply Forall_insert; assumption.
Qed.

Lemma wfState_entry s p idx e :
  wfState s -> findIndex p (entries s) = Some (idx, e) -> wfEntry e.
Proof.
  intros [_ Hes] Hf. rewrite Forall_forall in Hes. apply Hes.
  eapply findIndex_elem, Hf.
Qed.

Lemma addEntry_wf data s :
  0 < NewEntry.entryMarketCap data -> 0 < NewEntry.solInvested data ->
  wfState s -> wfState (fst (addEntry data s)).
Proof.
  intros Hm Ha [Hb Hes]. unfold addEntry.
  destruct (balance s <? NewEntry.solInvested data) eqn:T; simpl; [split; assumption|].
  tests. split; simpl; [lra|].
  constructor; [|assumption]. repeat split; simpl; try assumption; try lra. discriminate.
Qed.

Lemma updateCurrentMcap_wf i mcap s :
  wfState s -> wfState (fst (updateCurrentMcap i mcap s)).
Proof.
  intros Hs. unfold updateCurrentMcap.
  destruct (findIndex (hasId i) (entries s)) as [[idx e]|] eqn:Hf; simpl; [|assumption].
  apply wfState_replace; [assumption|apply Hs|].
  exact (wfState_entry _ _ _ _ Hs Hf).
Qed.

Lemma editEntry_wf i updates s :
  wfState s -> wfState (fst (editEntry i updates s)).
Proof.
  intros Hs. unfold editEntry.
  destruct (findIndex (hasId i) (entries s)) as [[idx e]|] eqn:Hf; simpl; [|assumption].
  pose proof (wfState_entry _ _ _ _ Hs Hf) as (Hmc & Hinv & Hsold).
  destruct (isOpen e) eqn:Ho; simpl; [|assumption].
  apply isOpen_status in Ho.
  assert (Hnew : 0 < match Updates.entryMarketCap updates with
                     | Some mc => if isFinitePos mc then mc else entryMarketCap e
                     | None => entryMarketCap e
                     end).
  { destruct (Updates.entryMarketCap updates) as [mc|]; [|assumption].
    destruct (isFinitePos mc) eqn:T; [tests|]; assumption. }
  destruct (Updates.solInvested updates) as [inv|].
  - destruct ((0 <? inv - solInvested e) && (balance s <? inv - solInvested e)) eqn:T;
      simpl; [assumption|].
    apply wfState_replace; [assumption| |].
    + destruct Hs as [Hb _]. apply andb_false_iff in T as [T|T]; tests; lra.
    + repeat split; simpl; [assumption|apply Qmax_0_nonneg|congruence].
  - simpl. apply wfState_replace; [assumption|apply Hs|].
    repeat split; simpl; [assumption|assumption|congruence].
Qed.

Lemma buyMore_avg_pos (A v m a : Q) :
  0 < A -> 0 <= v -> 0 < m -> 0 < a -> 0 < (A * v + m * a) / (v + a).
Proof.
  intros HA Hv Hm Ha. apply Qdiv_pos; [|lra].
  pose proof (Qmult_le_0_compat A v) as H1.
  pose proof (Qmult_lt_0_compat m a Hm Ha) as H2.
  assert (0 <= A * v) by (apply H1; lra). lra.
Qed.

Lemma buyMore_wf i m a s :
  0 < m -> 0 < a -> wfState s -> wfState (fst (buyMore i m a s)).
Proof.
  intros Hm Ha Hs. unfold buyMore.
  destruct (findIndex (hasId i) (entries s)) as [[idx e]|] eqn:Hf; simpl; [|assumption].
  pose proof (wfState_entry _ _ _ _ Hs Hf) as (Hmc & Hinv & Hsold).
  destruct (isOpen e) eqn:Ho; simpl; [|assumption].
  apply isOpen_status in Ho.
  destruct (balance s <? a) eqn:T; simpl; [assumption|]. tests.
  apply wfState_replace; [assumption|lra|].
  repeat split; simpl; [apply buyMore_avg_pos; assumption|lra|congruence].
Qed.

Lemma sellReturned_nonneg e m a :
  0 < entryMarketCap e -> 0 < m -> 0 < a -> 0 < sellReturned e m a.
Proof.
  intros HA Hm Ha. unfold sellReturned, sellMultiplier.
  apply Qmult_lt_0_compat; [assumption|]. apply Qdiv_pos; assumption.
Qed.

Lemma wfEntry_close e nowIso : 0 < entryMarketCap e -> wfEntry (closePosition e nowIso).
Proof. intros H. repeat split; simpl; [assumption|lra]. Qed.

Lemma partialSell_wf i m a nowIso s :
  0 < m -> wfState s -> wfState (fst (partialSell i m a nowIso s)).
Proof.
  intros Hm Hs. unfold partialSell.
  destruct (findIndex (hasId i) (entries s)) as [[idx e]|] eqn:Hf; simpl; [|assumption].
  pose proof (wfState_entry _ _ _ _ Hs Hf) as (Hmc & Hinv & Hsold).
  destruct (isOpen e) eqn:Ho; simpl; [|assumption].
  apply isOpen_status in Ho.
  destruct ((a <=? 0) || (solInvested e <? a)) eqn:T; simpl; [assumption|]. tests.
  apply wfState_replace; [assumption| |].
  - pose proof (sellReturned_nonneg e m a Hmc Hm ltac:(assumption)). destruct Hs. lra.
  - destruct (solInvested e - a <=? 0.0000001) eqn:T'.
    + apply wfEntry_close. assumption.
    + repeat split; simpl; [assumption|lra|congruence].
Qed.

Lemma adjustBalance_wf delta s : wfState s -> wfState (fst (adjustBalance delta s)).
Proof.
  intros Hs. unfold adjustBalance.
  destruct (balance s + delta <? 0) eqn:T; simpl; [assumption|]. tests.
  split; [assumption|apply Hs].
Qed.

Lemma pushHistoryPoint_same now s :
  balance (pushHistoryPoint now s) = balance s
  /\ entries (pushHistoryPoint now s) = entries s.
Proof.
  unfold pushHistoryPoint. cbv zeta.
  match goal with |- context [if ?c then _ else _] => destruct c end; auto.
Qed.

Lemma step_wf a s : validArgs a -> wfState s -> wfState (step a s).
Proof.
  unfold step. destruct a; simpl; intros Hv Hs.
  - split; simpl; [lra|constructor].
  - destruct Hv. apply addEntry_wf; assumption.
  - apply updateCurrentMcap_wf; assumption.
  - apply editEntry_wf; assumption.
  - destruct Hv. apply buyMore_wf; assumption.
  - apply partialSell_wf; assumption.
  - apply adjustBalance_wf; assumption.
  - split; simpl; [lra|constructor].
  - destruct (pushHistoryPoint_same now s) as [Hb He].
    split; [rewrite Hb|rewrite He]; apply Hs.
  - exact Hs.
Qed.

Lemma initialState_wf : wfState initialState.
Proof. split; simpl; [lra|constructor]. Qed.

Lemma reachable_wf s : reachable s -> wfState s.
Proof.
  induction 1 as [|a s _ IH Hv]; [apply initialState_wf|].
  apply step_wf; assumption.
Qed.

(* ------------------------------------------------------------------------- *)
(** ** Reachability *)

Lemma runAll_reachable ok acts s :
  reachableBy ok s -> Forall ok acts -> reachableBy ok (runAll acts s).
Proof.
  intros Hs Hacts. revert s Hs.
  induction Hacts as [|a acts Ha _ IH]; intros s Hs; simpl; [assumption|].
  apply IH. constructor; assumption.
Qed.

Lemma reachableBy_weaken (ok ok' : Action -> Prop) s :
  (forall a, ok a -> ok' a) -> reachableBy ok s -> reachableBy ok' s.
Proof. intros Hok. induction 1; constructor; auto. Qed.

Lemma scenarioActions_valid : Forall carefulArgs scenarioActions.
Proof. repeat constructor; simpl; lra. Qed.

Lemma scenario_prefix_reachable n :
  reachableBy carefulArgs (runAll (take n scenarioActions) initialState).
Proof.
  apply runAll_reachable; [constructor|].
  apply Forall_take, scenarioActions_valid.
Qed.

Lemma scenarioC_careful : reachableBy carefulArgs scenarioC.
Proof. exact (scenario_prefix_reachable 4). Qed.

Lemma scenarioC_reachable : reachable scenarioC.
Proof. apply (reachableBy_weaken carefulArgs); [intros a [H _]; exact H|apply scenarioC_careful]. Qed.

Lemma scenarioA_reachable : reachable scenarioA.
Proof.
  apply (reachableBy_weaken carefulArgs); [intros a [H _]; exact H|].
  exact (scenario_prefix_reachable 2).
Qed.

(* ------------------------------------------------------------------------- *)
(** ** Open positions hold capital unless a revision empties them *)

Lemma openFunded_entry s p idx e :
  Forall openFunded (entries s) -> findIndex p (entries s) = Some (idx, e) ->
  openFunded e.
Proof.
  intros Hes Hf. rewrite Forall_forall in Hes. apply Hes. eapply findIndex_elem, Hf.
Qed.

Lemma step_openFunded a s :
  carefulArgs a -> Forall openFunded (entries s) ->
  Forall openFunded (entries (step a s)).
Proof.
  unfold step. intros [Hv Hp] Hs. destruct a; simpl in *.
  - constructor.
  - unfold addEntry. destruct (balance s <? _); simpl; [assumption|].
    constructor; [|assumption]. intros _. simpl. apply Hv.
  - unfold updateCurrentMcap.
    destruct (findIndex _ _) as [[idx e]|] eqn:Hf; simpl; [|assumption].
    apply Forall_insert; [assumption|]. exact (openFunded_entry _ _ _ _ Hs Hf).
  - unfold editEntry.
    destruct (findIndex _ _) as [[idx e]|] eqn:Hf; simpl; [|assumption].
    pose proof (openFunded_entry _ _ _ _ Hs Hf) as He.
    destruct (isOpen e); simpl; [|assumption].
    destruct (Updates.solInvested updates) as [inv|].
    + destruct (_ && _); simpl; [assumption|].
      apply Forall_insert; [assumption|]. intros _. simpl.
      apply Q.max_lt_iff. right. exact Hp.
    + simpl. apply Forall_insert; [assumption|]. exact He.
  - unfold buyMore.
    destruct (findIndex _ _) as [[idx e]|] eqn:Hf; simpl; [|assumption].
    pose proof (openFunded_entry _ _ _ _ Hs Hf) as He.
    destruct (isOpen e) eqn:Ho; simpl; [|assumption].
    apply isOpen_status in Ho.
    destruct (balance s <? _); simpl; [assumption|].
    apply Forall_insert; [assumption|]. intros _. simpl.
    specialize (He Ho). lra.
  - unfold partialSell.
    destruct (findIndex _ _) as [[idx e]|] eqn:Hf; simpl; [|assumption].
    destruct (isOpen e); simpl; [|assumption].
    destruct (_ || _); simpl; [assumption|].
    apply Forall_insert; [assumption|].
    destruct (_ <=? _) eqn:T; [intros [=]|]. tests. intros _. simpl. lra.
  - unfold adjustBalance. destruct (_ <? _); simpl; assumption.
  - constructor.
  - destruct (pushHistoryPoint_same now s) as [_ ->]. assumption.
  - assumption.
Qed.

Lemma careful_openFunded s :
  reachableBy carefulArgs s -> Forall openFunded (entries s).
Proof.
  induction 1 as [|a s _ IH Hv]; [constructor|]. apply step_openFunded; assumption.
Qed.

Lemma scenarioRevised_reachable : reachable scenarioRevised.
Proof. constructor; [apply scenarioA_reachable|exact I]. Qed.

(* ------------------------------------------------------------------------- *)
(** ** The properties of the specification *)

(** C1 (as amended).  After [setStartingBalance(10)], [addEntry("X", 1000, 2)]
    and [buyMore("1", 2000, 2)] the position has average entry 1500 and holds
    4 with balance 6; [partialSell("1", 3000, 4)] then computes multiplier 2,
    proceeds 8 and realized gain 4, closes the position with [pnl = 4] and
    [pnlPercent = 4/4*100 = 100] (the total bought is 2 + 2 = 4), and leaves
    balance 14. *)
Theorem scenario_C_closes_at_100_percent :
  exists eB eC,
    entries scenarioB = [eB] /\ entries scenarioC = [eC]
    /\ id eB = "1"%string /\ status eB = open
    /\ entryMarketCap eB == 1500 /\ solInvested eB == 4 /\ balance scenarioB == 6
    /\ sellMultiplier eB 3000 == 2
    /\ sellReturned eB 3000 4 == 8
    /\ sellRealized eB 3000 4 == 4
    /\ outcome (PartialSell "1" 3000 4 scenarioClock) scenarioB = Applied
    /\ status eC = sold /\ solInvested eC = 0
    /\ isNum (solReturned eC) 8
    /\ isNum (pnl eC) 4
    /\ isNum (cumulativeBuySOL eC) 4
    /\ isNum (pnlPercent eC) (4 / 4 * 100)
    /\ balance scenarioC == 14.
Proof.
  eexists; eexists.
  split; [vm_compute; reflexivity|].
  split; [vm_compute; reflexivity|].
  repeat split; vm_compute; reflexivity.
Qed.

(** C1, as stated, fails: the closed position's [pnlPercent] is 100, not
    4/6*100. *)
Lemma scenario_C_percent_is_not_two_thirds :
  exists eC, entries scenarioC = [eC]
             /\ isNum (pnlPercent eC) 100
             /\ ~ isNum (pnlPercent eC) (4 / 6 * 100).
Proof.
  eexists. split; [vm_compute; reflexivity|].
  split; vm_compute; [reflexivity|discriminate].
Qed.




(** C3.  [updateCurrentMcap] on the closed position of scenario C is applied
    and overwrites its [currentMarketCap]. *)
Lemma updateCurrentMcap_overwrites_closed_mark :
  exists e e' s',
    entries scenarioC = [e] /\ status e = sold /\ isNum (currentMarketCap e) 3000
    /\ run (UpdateCurrentMcap "1" 5000) scenarioC = (s', Applied)
    /\ entries s' = [e'] /\ status e' = sold /\ isNum (currentMarketCap e') 5000.
Proof.
  eexists; eexists; eexists.
  split; [vm_compute; reflexivity|].
  split; [reflexivity|]. split; [vm_compute; reflexivity|].
  split; [vm_compute; reflexivity|].
  split; [reflexivity|]. split; [reflexivity|]. vm_compute; reflexivity.
Qed.

(** C6.  An action that is rejected returns the state it was given. *)
Theorem rejected_is_noop :
  forall a s why, outcome a s = Rejected why -> step a s = s.
Proof.
  unfold outcome, step. intros a s why.
  destruct a; simpl; try discriminate.
  - unfold addEntry. destruct (_ <? _); simpl; [reflexivity|discriminate].
  - unfold updateCurrentMcap.
    destruct (findIndex _ _) as [[idx e]|]; simpl; [discriminate|reflexivity].
  - unfold editEntry.
    destruct (findIndex _ _) as [[idx e]|]; simpl; [|reflexivity].
    destruct (isOpen e); simpl; [|reflexivity].
    destruct (Updates.solInvested updates) as [inv|]; simpl; [|discriminate].
    destruct (_ && _); simpl; [reflexivity|discriminate].
  - unfold buyMore.
    destruct (findIndex _ _) as [[idx e]|]; simpl; [|reflexivity].
    destruct (isOpen e); simpl; [|reflexivity].
    destruct (_ <? _); simpl; [reflexivity|discriminate].
  - unfold partialSell.
    destruct (findIndex _ _) as [[idx e]|]; simpl; [|reflexivity].
    destruct (isOpen e); simpl; [|reflexivity].
    destruct (_ || _); simpl; [reflexivity|discriminate].
  - unfold adjustBalance. destruct (_ <? _); simpl; [reflexivity|discriminate].
Qed.

Lemma rejected_is_noop_witness :
  outcome (PartialSell "1" 3000 5 scenarioClock) scenarioB = Rejected InvalidSellAmount
  /\ step (PartialSell "1" 3000 5 scenarioClock) scenarioB = scenarioB.
Proof.
  split; [vm_compute; reflexivity|].
  apply (rejected_is_noop (PartialSell "1" 3000 5 scenarioClock) scenarioB InvalidSellAmount).
  vm_compute; reflexivity.
Defined.

(** C9.  [loadState] is a total function of what the storage holds.  It
    returns the uninitialized state when the item is missing, empty or cannot
    be read, when it does not parse, and when the parsed value has no numeric
    [balance] or no array [entries]; for an object with both and no [history]
    it returns the stored fields with an empty history. *)
Theorem loadState_defaults :
  forall (JSON_parse : string -> option json) (st : Stored),
    (st = Missing \/ st = GetItemThrows \/ st = Raw EmptyString ->
     loadState JSON_parse st = emptyLoaded)
    /\ (forall raw, st = Raw raw -> JSON_parse raw = None ->
        loadState JSON_parse st = emptyLoaded)
    /\ (forall raw v, st = Raw raw -> JSON_parse raw = Some v ->
        (forall b, prop v "balance" <> Some (JNum b))
        \/ (forall es, prop v "entries" <> Some (JArr es)) ->
        loadState JSON_parse st = emptyLoaded)
    /\ (forall raw v b es, st = Raw raw -> raw <> EmptyString ->
        JSON_parse raw = Some v ->
        prop v "balance" = Some (JNum b) ->
        prop v "entries" = Some (JArr es) ->
        prop v "history" = None ->
        loadState JSON_parse st =
          {| l_startingBalance := nullish (prop v "startingBalance") JNull;
             l_balance := b;
             l_entries := es;
             l_nextId := nullish (prop v "nextId") (JNum 1);
             l_history := [] |}).
Proof.
  intros parse st. repeat split.
  - intros [-> | [-> | ->]]; reflexivity.
  - intros raw -> Hp. simpl. rewrite Hp. destruct (String.eqb raw EmptyString); reflexivity.
  - intros raw v -> Hp Hbad. simpl. rewrite Hp.
    destruct (String.eqb raw EmptyString); [reflexivity|].
    destruct (falsy v); [reflexivity|].
    destruct (prop v "balance") as [[| | b | | |]|] eqn:Hb; try reflexivity.
    destruct (prop v "entries") as [[| | | | es |]|] eqn:He; try reflexivity.
    destruct Hbad as [Hbad | Hbad]; [destruct (Hbad b)|destruct (Hbad es)]; reflexivity.
  - intros raw v b es -> Hne Hp Hb He Hh. simpl.
    destruct (String.eqb raw EmptyString) eqn:E;
      [apply String.eqb_eq in E; contradiction|].
    rewrite Hp.
    assert (Hf : falsy v = false) by (destruct v; simpl in Hb; try discriminate; reflexivity).
    rewrite Hf, Hb, He, Hh. reflexivity.
Qed.

Lemma loadState_defaults_witness :
  loadState parseOlderSave (Raw olderSave) =
    {| l_startingBalance := JNum 10; l_balance := 8; l_entries := [];
       l_nextId := JNum 2; l_history := [] |}.
Proof.
  destruct (loadState_defaults parseOlderSave (Raw olderSave)) as (_ & _ & _ & H).
  apply (H olderSave olderSaveParsed 8 []).
  - reflexivity.
  - discriminate.
  - reflexivity.
  - reflexivity.
  - reflexivity.
  - reflexivity.
Defined.

(* ------------------------------------------------------------------------- *)
(** ** Auxiliary equations *)

Lemma pushHistoryPoint_unfold now s :
  pushHistoryPoint now s = if historyUnchanged s then s else appendPoint now s.
Proof. reflexivity. Qed.

Lemma findIndex_insert p l idx e e' :
  findIndex p l = Some (idx, e) -> p e' = true ->
  findIndex p (<[idx := e']> l) = Some (idx, e').
Proof.
  revert idx. induction l as [|x l IH]; intros idx; simpl; [discriminate|].
  destruct (p x) eqn:Hp.
  - intros [= <- <-] He'. simpl. rewrite He'. reflexivity.
  - destruct (findIndex p l) as [[j y]|] eqn:Hf; [|discriminate].
    intros [= <- <-] He'. simpl. rewrite Hp. rewrite (IH j eq_refl He'). reflexivity.
Qed.

(* ------------------------------------------------------------------------- *)
(** ** Identifiers *)

Lemma String_of_inj (a b : N) : String_of a = String_of b -> a = b.
Proof.
  unfold String_of. intros H.
  assert (Hnn : forall n, N.to_uint n <> Decimal.Nil).
  { intros [|p]; [discriminate|]. apply DecimalPos.Unsigned.to_uint_nonnil. }
  apply DecimalN.Unsigned.to_uint_inj.
  pose proof (NilZero.usu _ (Hnn a)) as Ha. pose proof (NilZero.usu _ (Hnn b)) as Hb.
  rewrite H in Ha. congruence.
Qed.

Lemma ids_insert (l : list Entry) idx e e' :
  l !! idx = Some e -> id e' = id e -> id <$> <[idx := e']> l = id <$> l.
Proof.
  intros Hl Hid. rewrite list_fmap_insert, Hid. apply list_insert_id.
  rewrite list_lookup_fmap, Hl. reflexivity.
Qed.

Lemma step_entriesStep a s : wipes a = false -> entriesStep s (step a s).
Proof.
  unfold step. destruct a; simpl; try discriminate; intros _.
  - unfold addEntry. destruct (_ <? _); simpl; [apply entries_kept; reflexivity|].
    eapply entries_opened; reflexivity.
  - unfold updateCurrentMcap.
    destruct (findIndex _ _) as [[idx e]|] eqn:Hf; simpl;
      [|apply entries_kept; reflexivity].
    eapply entries_replaced; [exact Hf|reflexivity..|]. intros _. eexists; reflexivity.
  - unfold editEntry.
    destruct (findIndex _ _) as [[idx e]|] eqn:Hf; simpl;
      [|apply entries_kept; reflexivity].
    destruct (isOpen e) eqn:Ho; simpl; [|apply entries_kept; reflexivity].
    apply isOpen_status in Ho.
    destruct (Updates.solInvested updates) as [inv|].
    + destruct (_ && _); simpl; [apply entries_kept; reflexivity|].
      eapply entries_replaced; [exact Hf|reflexivity..|]. congruence.
    + simpl. eapply entries_replaced; [exact Hf|reflexivity..|]. congruence.
  - unfold buyMore.
    destruct (findIndex _ _) as [[idx e]|] eqn:Hf; simpl;
      [|apply entries_kept; reflexivity].
    destruct (isOpen e) eqn:Ho; simpl; [|apply entries_kept; reflexivity].
    apply isOpen_status in Ho.
    destruct (_ <? _); simpl; [apply entries_kept; reflexivity|].
    eapply entries_replaced; [exact Hf|reflexivity..|]. congruence.
  - unfold partialSell.
    destruct (findIndex _ _) as [[idx e]|] eqn:Hf; simpl;
      [|apply entries_kept; reflexivity].
    destruct (isOpen e) eqn:Ho; simpl; [|apply entries_kept; reflexivity].
    apply isOpen_status in Ho.
    destruct (_ || _); simpl; [apply entries_kept; reflexivity|].
    eapply entries_replaced; [exact Hf|reflexivity| |reflexivity|congruence].
    destruct (_ <=? _); reflexivity.
  - unfold adjustBalance. destruct (_ <? _); apply entries_kept; reflexivity.
  - destruct (pushHistoryPoint_same now s) as [_ He].
    apply entries_kept; [exact He|].
    rewrite pushHistoryPoint_unfold. destruct (historyUnchanged s); reflexivity.
  - apply entries_kept; reflexivity.
Qed.

Lemma step_idsFresh a s : idsFresh s -> idsFresh (step a s).
Proof.
  intros (Hone & Hnd & Hids). destruct (wipes a) eqn:Hw.
  - destruct a; try discriminate; repeat split; simpl; try constructor; lia.
  - destruct (step_entriesStep a s Hw) as [He Hn | e He Hid Hn _ | i idx e e' Hf He Hid Hn _].
    + unfold idsFresh. rewrite He, Hn. repeat split; assumption.
    + unfold idsFresh. rewrite He, Hn. split; [lia|]. split.
      * rewrite fmap_cons. apply NoDup_cons. split; [|assumption].
        intros Hin. apply list_elem_of_fmap in Hin as (x & Hx & Hxin).
        rewrite Forall_forall in Hids. destruct (Hids x Hxin) as (k & Hk & Hxk).
        rewrite Hid, Hxk in Hx. apply String_of_inj in Hx. lia.
      * constructor; [exists (nextId s); split; [lia|exact Hid]|].
        eapply Forall_impl; [exact Hids|]. intros x (k & Hk & Hxk).
        exists k. split; [lia|exact Hxk].
    + apply findIndex_Some in Hf as [Hl _].
      unfold idsFresh. rewrite He, Hn. split; [assumption|]. split.
      * rewrite (ids_insert _ _ _ _ Hl Hid). assumption.
      * apply Forall_insert; [assumption|].
        rewrite Forall_forall in Hids.
        destruct (Hids e (list_elem_of_lookup_2 _ _ _ Hl)) as (k & Hk & Hek).
        exists k. split; [exact Hk|congruence].
Qed.

Lemma findIndex_first p l idx e :
  l !! idx = Some e -> p e = true ->
  exists j x, findIndex p l = Some (j, x) /\ (j <= idx)%nat.
Proof.
  revert idx. induction l as [|y l IH]; intros idx; [discriminate|].
  simpl. destruct (p y) eqn:Hy.
  - intros _ _. exists 0%nat, y. split; [reflexivity|lia].
  - destruct idx as [|idx]; simpl.
    + intros [= ->] He. congruence.
    + intros Hl He. destruct (IH idx Hl He) as (j & x & -> & Hj).
      exists (S j), x. split; [reflexivity|lia].
Qed.

Lemma initialState_idsFresh : idsFresh initialState.
Proof. repeat split; simpl; try constructor; lia. Qed.

(** X1.  Whatever arguments the actions are given, the positions of a state
    reached from the initial state have pairwise distinct ids, each id is
    [String(k)] for some [1 <= k < nextId], and looking an id up finds the
    position that carries it. *)
Theorem ids_are_unique :
  forall (ok : Action -> Prop) (s : AppState),
    reachableBy ok s ->
    idsFresh s
    /\ forall idx e, entries s !! idx = Some e ->
         findIndex (hasId (id e)) (entries s) = Some (idx, e).
Proof.
  intros ok s Hs.
  assert (Hfresh : idsFresh s).
  { induction Hs as [|a s _ IH _]; [apply initialState_idsFresh|].
    apply step_idsFresh, IH. }
  split; [exact Hfresh|]. intros idx e Hl.
  destruct Hfresh as (_ & Hnd & _).
  assert (Hp : hasId (id e) e = true) by apply String.eqb_refl.
  destruct (findIndex_first _ _ _ _ Hl Hp) as (j & x & Hf & _).
  pose proof (findIndex_Some _ _ _ _ Hf) as [Hj Hx].
  apply String.eqb_eq in Hx.
  assert (j = idx).
  { eapply (NoDup_lookup _ _ _ (id e) Hnd); rewrite list_lookup_fmap.
    - rewrite Hj. simpl. congruence.
    - rewrite Hl. reflexivity. }
  subst j. rewrite Hf. congruence.
Qed.

Lemma ids_are_unique_witness :
  reachableBy carefulArgs scenarioC
  /\ idsFresh scenarioC
  /\ forall idx e, entries scenarioC !! idx = Some e ->
       findIndex (hasId (id e)) (entries scenarioC) = Some (idx, e).
Proof.
  split; [exact scenarioC_careful|].
  exact (ids_are_unique carefulArgs scenarioC scenarioC_careful).
Defined.

Lemma replaced_other_kept (l : list Entry) idx x x' e :
  l !! idx = Some x -> x <> e -> e ∈ l -> e ∈ <[idx := x']> l.
Proof.
  intros Hl Hne Hin. apply list_elem_of_lookup_1 in Hin as [j Hj].
  eapply list_elem_of_lookup_2.
  rewrite list_lookup_insert_ne; [exact Hj|]. congruence.
Qed.

(** X2.  A closed position is final: an action other than
    [setStartingBalance] and [resetAll] keeps every sold position in the
    list exactly as it was; only [updateCurrentMcap] with the position's own
    id can put in its place the same position with another
    [currentMarketCap]. *)
Theorem sold_positions_are_kept :
  forall a s e,
    wipes a = false -> e ∈ entries s -> status e = sold ->
    match a with
    | UpdateCurrentMcap i mcap =>
        (id e <> i -> e ∈ entries (step a s))
        /\ (e ∈ entries (step a s) \/ setCurrentMarketCap e mcap ∈ entries (step a s))
    | _ => e ∈ entries (step a s)
    end.
Proof.
  intros a s e Hw Hin Hsold.
  assert (Hopen : forall p idx x x',
            findIndex p (entries s) = Some (idx, x) -> isOpen x = true ->
            e ∈ <[idx := x']> (entries s)).
  { intros p idx x x' Hf Ho. apply findIndex_Some in Hf as [Hl _].
    apply (replaced_other_kept _ _ x); [exact Hl| |exact Hin].
    intros ->. apply isOpen_status in Ho. congruence. }
  unfold step. destruct a; simpl; try discriminate Hw.
  - unfold addEntry. destruct (_ <? _); simpl; [exact Hin|right; exact Hin].
  - unfold updateCurrentMcap.
    destruct (findIndex _ _) as [[idx x]|] eqn:Hf; simpl; [|auto].
    apply findIndex_Some in Hf as [Hl Hid]. apply String.eqb_eq in Hid.
    split.
    + intros Hne. apply (replaced_other_kept _ _ x); [exact Hl| |exact Hin].
      intros ->. contradiction.
    + apply list_elem_of_lookup_1 in Hin as [j Hj].
      destruct (decide (idx = j)) as [->|Hne].
      * assert (x = e) by congruence. subst x.
        right. eapply list_elem_of_lookup_2.
        apply list_lookup_insert_eq. eapply lookup_lt_Some, Hl.
      * left. eapply list_elem_of_lookup_2.
        rewrite list_lookup_insert_ne; [exact Hj|exact Hne].
  - unfold editEntry.
    destruct (findIndex _ _) as [[idx x]|] eqn:Hf; simpl; [|exact Hin].
    destruct (isOpen x) eqn:Ho; simpl; [|exact Hin].
    destruct (Updates.solInvested updates) as [inv|].
    + destruct (_ && _); simpl; [exact Hin|]. exact (Hopen _ _ _ _ Hf Ho).
    + simpl. exact (Hopen _ _ _ _ Hf Ho).
  - unfold buyMore.
    destruct (findIndex _ _) as [[idx x]|] eqn:Hf; simpl; [|exact Hin].
    destruct (isOpen x) eqn:Ho; simpl; [|exact Hin].
    destruct (_ <? _); simpl; [exact Hin|]. exact (Hopen _ _ _ _ Hf Ho).
  - unfold partialSell.
    destruct (findIndex _ _) as [[idx x]|] eqn:Hf; simpl; [|exact Hin].
    destruct (isOpen x) eqn:Ho; simpl; [|exact Hin].
    destruct (_ || _); simpl; [exact Hin|]. exact (Hopen _ _ _ _ Hf Ho).
  - unfold adjustBalance. destruct (_ <? _); exact Hin.
  - destruct (pushHistoryPoint_same now s) as [_ ->]. exact Hin.
  - exact Hin.
Qed.

Lemma sold_positions_are_kept_witness :
  exists e,
    e ∈ entries scenarioC /\ status e = sold
    /\ e ∈ entries (step (BuyMore "1" 5000 1) scenarioC)
    /\ e ∈ entries (step (PartialSell "1" 5000 1 scenarioClock) scenarioC)
    /\ e ∈ entries (step (EditEntry "1" (Updates.mk None None (Some 3))) scenarioC)
    /\ (e ∈ entries (step (UpdateCurrentMcap "1" 5000) scenarioC)
        \/ setCurrentMarketCap e 5000
           ∈ entries (step (UpdateCurrentMcap "1" 5000) scenarioC)).
Proof.
  assert (H : exists e, e ∈ entries scenarioC /\ status e = sold).
  { eexists. split; [vm_compute; left|reflexivity]. }
  destruct H as (e & Hin & Hsold). exists e.
  split; [exact Hin|]. split; [exact Hsold|].
  split; [exact (sold_positions_are_kept (BuyMore "1" 5000 1) scenarioC e
                   eq_refl Hin Hsold)|].
  split; [exact (sold_positions_are_kept (PartialSell "1" 5000 1 scenarioClock)
                   scenarioC e eq_refl Hin Hsold)|].
  split; [exact (sold_positions_are_kept
                   (EditEntry "1" (Updates.mk None None (Some 3))) scenarioC e
                   eq_refl Hin Hsold)|].
  exact (proj2 (sold_positions_are_kept (UpdateCurrentMcap "1" 5000) scenarioC e
                  eq_refl Hin Hsold)).
Defined.

(* ------------------------------------------------------------------------- *)
(** ** The sell form *)

Lemma updateCurrentMcap_found i m s idx e :
  findIndex (hasId i) (entries s) = Some (idx, e) ->
  fst (updateCurrentMcap i m s)
  = withBalanceEntries s (balance s) (<[idx := setCurrentMarketCap e m]> (entries s))
  /\ findIndex (hasId i) (entries (fst (updateCurrentMcap i m s)))
     = Some (idx, setCurrentMarketCap e m).
Proof.
  intros Hf. unfold updateCurrentMcap. rewrite Hf. simpl. split; [reflexivity|].
  apply (findIndex_insert _ _ _ _ _ Hf).
  apply findIndex_Some in Hf as [_ Hid]. exact Hid.
Qed.

Lemma confirmSell_submits entry i m val nowIso s :
  0 < m -> 0 < val ->
  val / (m / entryMarketCap entry) <= solInvested entry + 1e-12 ->
  confirmSell entry i m val nowIso s
  = (fst (partialSell i m (val / (m / entryMarketCap entry)) nowIso
            (fst (updateCurrentMcap i m s))), None).
Proof.
  intros Hm Hv Hle. unfold confirmSell.
  assert (T0 : (solInvested entry + 1e-12 <? val / (m / entryMarketCap entry)) = false)
    by (apply Qltb_false; exact Hle).
  assert (T1 : (m <=? 0) = false) by (apply Qleb_false; exact Hm).
  assert (T2 : (val <=? 0) = false) by (apply Qleb_false; exact Hv).
  rewrite T1, T2, T0. reflexivity.
Qed.



(* ------------------------------------------------------------------------- *)
(** ** The aggregate metrics *)

Lemma count_nonneg n : 0 <= count n.
Proof. unfold count. rewrite <- (Zle_Qle 0). lia. Qed.

Lemma count_pos n : (0 < n)%nat -> 0 < count n.
Proof. intros H. unfold count. rewrite <- (Zlt_Qlt 0). lia. Qed.

Lemma count_le n k : (n <= k)%nat -> count n <= count k.
Proof. intros H. unfold count. rewrite <- Zle_Qle. lia. Qed.

(** X11.  The win statistics are consistent: the wins are among the closed
    positions, wins and losses add up to them, and the win rate lies between 0
    and 100 and is 0 when no position is closed. *)
Theorem winStats_consistent :
  forall s,
    closed (winStats s) = length (soldEntries s)
    /\ (wins (winStats s) <= closed (winStats s))%nat
    /\ (Z.of_nat (wins (winStats s)) + losses (winStats s)
        = Z.of_nat (closed (winStats s)))%Z
    /\ (0 <= losses (winStats s))%Z
    /\ 0 <= winRate (winStats s) <= 100
    /\ (closed (winStats s) = 0%nat -> winRate (winStats s) = 0).
Proof.
  intros s. unfold winStats. simpl.
  set (l := soldEntries s).
  pose proof (List.filter_length_le (fun e => 0 <? default 0 (pnl e)) l) as Hle.
  split; [reflexivity|]. split; [exact Hle|]. split; [lia|]. split; [lia|].
  destruct (length l) as [|n] eqn:Hn; simpl.
  - split; [split; [apply Qle_refl|discriminate]|reflexivity].
  - split; [|discriminate].
    pose proof (count_pos (S n) ltac:(lia)) as Hc.
    pose proof (count_nonneg (length (List.filter (fun e => 0 <? default 0 (pnl e)) l))) as Hw.
    pose proof (count_le _ _ Hle) as Hwc.
    set (w := count (length (List.filter (fun e => 0 <? default 0 (pnl e)) l))) in *.
    set (c := count (S n)) in *.
    assert (0 <= w / c) by (apply Qle_shift_div_l; [exact Hc|lra]).
    assert (w / c <= 1) by (apply Qle_shift_div_r; [exact Hc|lra]).
    split; lra.
Qed.

(* ------------------------------------------------------------------------- *)
(** ** The recorded series *)

Lemma updater_keeps_history a s :
  wipes a = false ->
  (forall now, a <> PushHistoryPoint now) -> a <> ClearHistory ->
  history (step a s) = history s.
Proof.
  unfold step. destruct a; simpl; try discriminate; intros _ Hp Hc.
  - unfold addEntry. destruct (_ <? _); reflexivity.
  - unfold updateCurrentMcap. destruct (findIndex _ _) as [[idx e]|]; reflexivity.
  - unfold editEntry. destruct (findIndex _ _) as [[idx e]|]; [|reflexivity].
    destruct (isOpen e); [|reflexivity].
    destruct (Updates.solInvested updates); [|reflexivity].
    destruct (_ && _); reflexivity.
  - unfold buyMore. destruct (findIndex _ _) as [[idx e]|]; [|reflexivity].
    destruct (isOpen e); [|reflexivity]. destruct (_ <? _); reflexivity.
  - unfold partialSell. destruct (findIndex _ _) as [[idx e]|]; [|reflexivity].
    destruct (isOpen e); [|reflexivity]. destruct (_ || _); reflexivity.
  - unfold adjustBalance. destruct (_ <? _); reflexivity.
  - destruct (Hp now eq_refl).
  - destruct (Hc eq_refl).
Qed.

(** X15.  The recorded series is append-only: apart from [setStartingBalance],
    [resetAll] and the graph's reset, no action removes or changes a recorded
    point; only [pushHistoryPoint] adds one, at the end, with the balance and
    the open value of the state it is given. *)
Theorem history_is_append_only :
  forall a s,
    wipes a = false -> a <> ClearHistory ->
    default [] (history (step a s)) = default [] (history s)
    \/ exists now,
         a = PushHistoryPoint now
         /\ default [] (history (step a s))
            = default [] (history s)
              ++ [HistoryPoint.mk now (balance s) (investedOpen (totals s))].
Proof.
  intros a s Hw Hc.
  destruct a; try (left; rewrite updater_keeps_history; [reflexivity|assumption|discriminate|assumption]).
  unfold step. simpl. rewrite pushHistoryPoint_unfold.
  destruct (historyUnchanged s); [left; reflexivity|].
  right. exists now. split; reflexivity.
Qed.

Lemma history_is_append_only_witness :
  default [] (history (step (PushHistoryPoint 1000) scenarioB))
  = default [] (history scenarioB)
    ++ [HistoryPoint.mk 1000 (balance scenarioB) (investedOpen (totals scenarioB))].
Proof.
  destruct (history_is_append_only (PushHistoryPoint 1000) scenarioB eq_refl)
    as [H | (now & Ha & H)].
  - discriminate.
  - discriminate H.
  - injection Ha as <-. exact H.
Defined.

(* ------------------------------------------------------------------------- *)
(** ** The earlier component *)

Lemma V1_filter_others i (l : list V1.Entry) :
  Forall (fun x => V1.id x <> i) l ->
  List.filter (fun x => negb (V1.hasId i x)) l = l.
Proof.
  induction 1 as [|x l Hx _ IH]; simpl; [reflexivity|].
  unfold V1.hasId at 1. destruct (String.eqb (V1.id x) i) eqn:E.
  - apply String.eqb_eq in E. contradiction.
  - simpl. rewrite IH. reflexivity.
Qed.



(* ------------------------------------------------------------------------- *)
(** ** Double precision: signs survive rounding *)

Lemma binary_round_aux_signed s m e l :
  Double.signed s (binary_round_aux prec emax s m e l).
Proof.
  unfold binary_round_aux.
  destruct (shr_fexp prec emax m e l) as [mrs' e'].
  destruct (shr_fexp prec emax _ e' loc_Exact) as [mrs'' e''].
  destruct (shr_m mrs''); [exact eq_refl | | exact I].
  destruct (e'' <=? emax - prec)%Z; exact eq_refl.
Qed.

Lemma binary_round_signed s m e : Double.signed s (binary_round prec emax s m e).
Proof.
  unfold binary_round. destruct (shl_align _ _ _).
  apply binary_round_aux_signed.
Qed.

Lemma binary_normalize_nonneg d e :
  (0 <= d)%Z -> Double.signed false (binary_normalize prec emax d e false).
Proof.
  destruct d; simpl; intros H; [exact eq_refl | apply binary_round_signed | lia].
Qed.

Lemma binary_normalize_neg d e :
  (d < 0)%Z -> Double.signed true (binary_normalize prec emax d e false).
Proof.
  destruct d; simpl; intros H; [lia | lia | apply binary_round_signed].
Qed.

Lemma digits2_pos_bounds m :
  (2 ^ (Z.pos (digits2_pos m) - 1) <= Z.pos m < 2 ^ Z.pos (digits2_pos m))%Z.
Proof.
  induction m as [m IH | m IH |]; cbn [digits2_pos].
  - rewrite Pos2Z.inj_succ.
    replace (Z.succ (Z.pos (digits2_pos m)) - 1)%Z
      with (Z.succ (Z.pos (digits2_pos m) - 1))%Z by lia.
    rewrite !Z.pow_succ_r by lia. lia.
  - rewrite Pos2Z.inj_succ.
    replace (Z.succ (Z.pos (digits2_pos m)) - 1)%Z
      with (Z.succ (Z.pos (digits2_pos m) - 1))%Z by lia.
    rewrite !Z.pow_succ_r by lia. lia.
  - simpl. lia.
Qed.

Lemma shl_align_same m e : shl_align m e e = (m, e).
Proof. unfold shl_align. rewrite Z.sub_diag. reflexivity. Qed.

Lemma shl_align_shift m e e' :
  (e' < e)%Z -> Z.pos (fst (shl_align m e e')) = (2 ^ (e - e') * Z.pos m)%Z.
Proof.
  intros H. unfold shl_align.
  destruct (e' - e)%Z as [|d|d] eqn:E; try lia.
  cbn [fst]. change (Pos.iter xO m d) with (shift_pos d m).
  rewrite shift_pos_correct, Zpower_pos_nat, Zpower_nat_Z, positive_nat_Z.
  replace (e - e')%Z with (Z.pos d) by lia. reflexivity.
Qed.

(** A valid finite double has at most 53 digits, and exactly 53 above the
    least exponent. *)
Lemma bounded_digits m e :
  bounded prec emax m e = true ->
  (Z.pos m < 2 ^ 53)%Z /\ (-1074 <= e)%Z /\ ((-1074 < e)%Z -> (2 ^ 52 <= Z.pos m)%Z).
Proof.
  unfold bounded, canonical_mantissa, fexp, SpecFloat.emin.
  intros H. apply andb_prop in H. destruct H as [H _].
  apply Z.eqb_eq in H.
  change (3 - emax - prec)%Z with (-1074)%Z in H.
  change prec with 53%Z in H.
  pose proof (digits2_pos_bounds m) as [Hl Hu].
  set (d := Z.pos (digits2_pos m)) in *.
  assert (Hd : (0 < d)%Z) by (unfold d; lia).
  assert (d <= 53)%Z by lia.
  repeat split.
  - apply Z.lt_le_trans with (2 ^ d)%Z; [exact Hu|].
    apply Z.pow_le_mono_r; lia.
  - lia.
  - intros He. assert (d = 53)%Z by lia.
    replace 52%Z with (d - 1)%Z by lia. exact Hl.
Qed.

(** The comparison of two valid positive doubles is the comparison of their
    mantissas once aligned. *)
Lemma align_ge mx ex my ey :
  bounded prec emax mx ex = true -> bounded prec emax my ey = true ->
  match (ex ?= ey)%Z with
  | Eq => Pos.compare_cont Eq mx my
  | Lt => Lt
  | Gt => Gt
  end <> Lt ->
  (Z.pos (fst (shl_align my ey (Z.min ex ey)))
   <= Z.pos (fst (shl_align mx ex (Z.min ex ey))))%Z.
Proof.
  intros Bx By H.
  destruct (Z.compare_spec ex ey) as [E | E | E].
  - subst ey. rewrite Z.min_id, !shl_align_same. cbn [fst].
    change (Pos.compare_cont Eq mx my) with (Pos.compare mx my) in H.
    apply Pos.compare_ge_iff in H. lia.
  - congruence.
  - rewrite Z.min_r by lia. rewrite shl_align_same, shl_align_shift by lia.
    cbn [fst].
    destruct (bounded_digits _ _ Bx) as (_ & _ & Hx).
    destruct (bounded_digits _ _ By) as (Hy & Hey & _).
    specialize (Hx ltac:(lia)).
    assert (2 ^ 1 <= 2 ^ (ex - ey))%Z by (apply Z.pow_le_mono_r; lia).
    change (2 ^ 1)%Z with 2%Z in *. change (2 ^ 53)%Z with (2 * 2 ^ 52)%Z in Hy.
    nia.
Qed.

(** [x - y] for two valid finite doubles with [x >= y]: never negative, and
    [+0] when it is zero. *)
Lemma SFsub_finite_ge sx mx ex sy my ey :
  bounded prec emax mx ex = true -> bounded prec emax my ey = true ->
  SFltb (S754_finite sx mx ex) (S754_finite sy my ey) = false ->
  Double.signed false (SF64sub (S754_finite sx mx ex) (S754_finite sy my ey)).
Proof.
  intros Bx By H. unfold SF64sub, SFsub.
  apply binary_normalize_nonneg.
  unfold SFltb, SFcompare in H.
  destruct sx, sy; cbn [cond_Zopp]; try discriminate.
  - assert (K : match (ey ?= ex)%Z with
                | Eq => Pos.compare_cont Eq my mx
                | Lt => Lt
                | Gt => Gt
                end <> Lt).
    { rewrite (Z.compare_antisym ex ey).
      destruct (ex ?= ey)%Z; cbn [CompOpp] in *; try discriminate.
      change (Pos.compare_cont Eq my mx) with (Pos.compare my mx).
      change (Pos.compare_cont Eq mx my) with (Pos.compare mx my) in H.
      rewrite (Pos.compare_antisym mx my).
      destruct (Pos.compare mx my); cbn [CompOpp] in *; discriminate. }
    pose proof (align_ge my ey mx ex By Bx K) as L.
    rewrite (Z.min_comm ey ex) in L. lia.
  - assert (K : match (ex ?= ey)%Z with
                | Eq => Pos.compare_cont Eq mx my
                | Lt => Lt
                | Gt => Gt
                end <> Lt).
    { destruct (ex ?= ey)%Z; try discriminate.
      destruct (Pos.compare_cont Eq mx my); discriminate. }
    pose proof (align_ge mx ex my ey Bx By K) as L. lia.
Qed.

(* ------------------------------------------------------------------------- *)
(** ** Double precision: signs of sums, products, quotients and differences *)

(** The cases that are settled by evaluating the operation on the kinds of
    its operands. *)
Ltac by_kind :=
  solve [ repeat match goal with s : bool |- _ => destruct s end;
          simpl in *; try discriminate; try reflexivity; exact I ].

Lemma Prim2SF_zero : Prim2SF 0 = S754_zero false.
Proof. reflexivity. Qed.

Lemma signed_false_not_neg x :
  Double.signed false x -> SFltb x (S754_zero false) = false.
Proof. destruct x as [s|s| |s m e]; simpl; intros H; subst; reflexivity. Qed.

Lemma signed_true_not_pos x :
  Double.signed true x -> SFltb (S754_zero false) x = false.
Proof. destruct x as [s|s| |s m e]; simpl; intros H; subst; reflexivity. Qed.

Lemma pos_unsigned (x : float) : (0 <? x)%float = true -> Double.unsigned x.
Proof.
  unfold Double.unsigned. rewrite FloatAxioms.ltb_spec, Prim2SF_zero.
  destruct (Prim2SF x) as [s|s| |s m e]; simpl; try discriminate;
    destruct s; try discriminate; reflexivity.
Qed.

Lemma unsigned_not_neg (x : float) : Double.unsigned x -> (x <? 0)%float = false.
Proof.
  unfold Double.unsigned. rewrite FloatAxioms.ltb_spec, Prim2SF_zero.
  apply signed_false_not_neg.
Qed.

Lemma unsigned_zero : Double.unsigned 0.
Proof. reflexivity. Qed.

Lemma unsigned_add (x y : float) :
  Double.unsigned x -> Double.unsigned y -> Double.unsigned (x + y).
Proof.
  unfold Double.unsigned. rewrite FloatAxioms.add_spec.
  destruct (Prim2SF x) as [sx|sx| |sx mx ex], (Prim2SF y) as [sy|sy| |sy my ey];
    simpl; intros Hx Hy; subst; try reflexivity; try exact I.
  apply binary_normalize_nonneg. cbn [cond_Zopp]. lia.
Qed.

Lemma unsigned_mul (x y : float) :
  Double.unsigned x -> Double.unsigned y -> Double.unsigned (x * y).
Proof.
  unfold Double.unsigned. rewrite FloatAxioms.mul_spec.
  destruct (Prim2SF x) as [sx|sx| |sx mx ex], (Prim2SF y) as [sy|sy| |sy my ey];
    simpl; intros Hx Hy; subst; try reflexivity; try exact I.
  apply (binary_round_aux_signed false).
Qed.

Lemma unsigned_div (x y : float) :
  Double.unsigned x -> Double.unsigned y -> Double.unsigned (x / y).
Proof.
  unfold Double.unsigned. rewrite FloatAxioms.div_spec.
  destruct (Prim2SF x) as [sx|sx| |sx mx ex], (Prim2SF y) as [sy|sy| |sy my ey];
    simpl; intros Hx Hy; subst; try reflexivity; try exact I.
  unfold SF64div, SFdiv.
  destruct (SFdiv_core_binary _ _ _ _ _ _) as [[mz ez] lz].
  apply (binary_round_aux_signed false).
Qed.

(** The guard [if (balance < amount) return s]: past it, [balance - amount]
    is not below 0. *)
Lemma sub_ge_not_neg (b a : float) :
  (b <? a)%float = false -> (b - a <? 0)%float = false.
Proof.
  rewrite !FloatAxioms.ltb_spec, FloatAxioms.sub_spec, Prim2SF_zero.
  pose proof (Prim2SF_valid b) as Vb. pose proof (Prim2SF_valid a) as Va.
  destruct (Prim2SF b) as [sb|sb| |sb mb eb], (Prim2SF a) as [sa|sa| |sa ma ea];
    intros H; try by_kind.
  apply signed_false_not_neg.
  apply SFsub_finite_ge; assumption.
Qed.

(** A balance that is not below 0, less an amount that is not above 0. *)
Lemma sub_nonpos_not_neg (b d : float) :
  (0 <? d)%float = false -> (b <? 0)%float = false -> (b - d <? 0)%float = false.
Proof.
  rewrite !FloatAxioms.ltb_spec, FloatAxioms.sub_spec, Prim2SF_zero.
  destruct (Prim2SF b) as [sb|sb| |sb mb eb], (Prim2SF d) as [sd|sd| |sd md ed];
    intros H K; try by_kind.
  destruct sb, sd; try discriminate H; try discriminate K.
  unfold SF64sub, SFsub.
  apply signed_false_not_neg. apply binary_normalize_nonneg.
  cbn [cond_Zopp]. lia.
Qed.

Lemma add_not_neg (b r : float) :
  (b <? 0)%float = false -> Double.unsigned r -> (b + r <? 0)%float = false.
Proof.
  unfold Double.unsigned. intros H K. rewrite FloatAxioms.ltb_spec, Prim2SF_zero in H.
  rewrite FloatAxioms.ltb_spec, FloatAxioms.add_spec, Prim2SF_zero.
  destruct (Prim2SF b) as [sb|sb| |sb mb eb], (Prim2SF r) as [sr|sr| |sr mr er];
    simpl in K; subst; try by_kind.
  destruct sb; try discriminate H.
  apply signed_false_not_neg. apply binary_normalize_nonneg.
  cbn [cond_Zopp]. lia.
Qed.

(** The guard of [partialSell]: past it, what remains of the principal is
    [+0], positive or [NaN]. *)
Lemma sub_ge_unsigned (v amt : float) :
  (amt <=? 0)%float = false -> (v <? amt)%float = false ->
  Double.unsigned v -> Double.unsigned (v - amt).
Proof.
  unfold Double.unsigned. intros H K L.
  rewrite FloatAxioms.leb_spec, Prim2SF_zero in H. rewrite FloatAxioms.ltb_spec in K. rewrite FloatAxioms.sub_spec.
  pose proof (Prim2SF_valid v) as Vv. pose proof (Prim2SF_valid amt) as Va.
  destruct (Prim2SF v) as [sv|sv| |sv mv ev], (Prim2SF amt) as [sa|sa| |sa ma ea];
    simpl in L; subst; try by_kind.
  destruct sa; try discriminate H.
  apply SFsub_finite_ge; assumption.
Qed.

(** [isFinite]: neither [NaN] nor an infinity. *)
Lemma is_finite_spec (x : float) :
  is_finite x = true ->
  (exists s, Prim2SF x = S754_zero s) \/ (exists s m e, Prim2SF x = S754_finite s m e).
Proof.
  unfold is_finite, is_nan, is_infinity. intros H.
  rewrite !FloatAxioms.eqb_spec, FloatAxioms.abs_spec in H.
  change (Prim2SF infinity) with (S754_infinity false) in H.
  destruct (Prim2SF x) as [s|s| |s m e]; simpl in H; try discriminate H.
  - left. exists s. reflexivity.
  - destruct s; discriminate H.
  - right. exists s, m, e. reflexivity.
Qed.

(** A finite number is within [1e-9] of itself. *)
Lemma sub_self_small (x : float) :
  is_finite x = true -> (abs (x - x) <? 1e-9)%float = true.
Proof.
  intros H. rewrite FloatAxioms.ltb_spec, FloatAxioms.abs_spec, FloatAxioms.sub_spec.
  change (Prim2SF 1e-9) with (S754_finite false 4835703278458517 (-82)).
  destruct (is_finite_spec x H) as [[s ->] | (s & m & e & ->)].
  - destruct s; reflexivity.
  - unfold SF64sub, SFsub. rewrite Z.sub_diag. reflexivity.
Qed.

(** A negative amount less a principal that is not negative is not above 0. *)
Lemma neg_sub_not_pos (nv v : float) :
  (nv <? 0)%float = true -> (0 <=? v)%float = true -> (0 <? nv - v)%float = false.
Proof.
  intros H K. rewrite FloatAxioms.ltb_spec, Prim2SF_zero in H.
  rewrite FloatAxioms.leb_spec, Prim2SF_zero in K.
  rewrite FloatAxioms.ltb_spec, FloatAxioms.sub_spec, Prim2SF_zero.
  destruct (Prim2SF nv) as [sn|sn| |sn mn en], (Prim2SF v) as [sv|sv| |sv mv ev];
    try by_kind.
  destruct sn; try discriminate H. destruct sv; try discriminate K.
  unfold SF64sub, SFsub.
  apply signed_true_not_pos. apply binary_normalize_neg.
  cbn [cond_Zopp]. lia.
Qed.

Lemma neg_not_nan (x : float) : (x <? 0)%float = true -> is_nan x = false.
Proof.
  unfold is_nan. intros H. rewrite FloatAxioms.ltb_spec, Prim2SF_zero in H. rewrite FloatAxioms.eqb_spec.
  destruct (Prim2SF x) as [s|s| |s m e]; simpl in H; try discriminate H.
  - destruct s; reflexivity.
  - unfold SFeqb, SFcompare. rewrite Z.compare_refl.
    change (PosDef.Pos.compare_cont Eq m m) with (Pos.compare m m).
    rewrite Pos.compare_refl. destruct s; reflexivity.
Qed.

Lemma neg_not_pos (x : float) : (x <? 0)%float = true -> (0 <? x)%float = false.
Proof.
  intros H. rewrite FloatAxioms.ltb_spec, Prim2SF_zero in H. rewrite FloatAxioms.ltb_spec, Prim2SF_zero.
  destruct (Prim2SF x) as [s|s| |s m e]; simpl in H; try discriminate H;
    destruct s; try discriminate H; reflexivity.
Qed.

(** [Math.max(0, x)] is 0 for a negative [x]. *)
Lemma Math_max_neg (x : float) : (x <? 0)%float = true -> Double.Math_max 0 x = 0%float.
Proof.
  intros H. unfold Double.Math_max.
  rewrite (neg_not_nan x H), (neg_not_pos x H), H. reflexivity.
Qed.

Lemma Math_max_unsigned (x : float) : Double.unsigned (Double.Math_max 0 x).
Proof.
  unfold Double.Math_max.
  destruct (is_nan 0 || is_nan x); [exact I|].
  destruct (0 <? x)%float eqn:P; [apply pos_unsigned; exact P|].
  destruct (x <? 0)%float; reflexivity.
Qed.

Lemma isFinitePos_pos (n : float) : Double.isFinitePos n = true -> (0 <? n)%float = true.
Proof. unfold Double.isFinitePos. intros H. apply andb_prop in H. apply H. Qed.

(* ------------------------------------------------------------------------- *)
(** ** Double precision: the balance is never below 0 *)

Lemma Double_findIndex_Some p l i e :
  Double.findIndex p l = Some (i, e) -> l !! i = Some e /\ p e = true.
Proof.
  revert i. induction l as [|x l IH]; intros i; simpl; [discriminate|].
  destruct (p x) eqn:Hp.
  - intros [= <- <-]. auto.
  - destruct (Double.findIndex p l) as [[j y]|]; [|discriminate].
    intros [= <- <-]. apply IH. reflexivity.
Qed.

Lemma Double_isOpen_status e : Double.isOpen e = true <-> Double.status e = open.
Proof. unfold Double.isOpen. destruct (Double.status e); split; congruence. Qed.

Lemma sound_entry s p idx e :
  Double.sound s -> Double.findIndex p (Double.entries s) = Some (idx, e) ->
  Double.soundEntry e.
Proof.
  intros [_ H] Hf. apply Double_findIndex_Some in Hf as [Hl _].
  rewrite Forall_forall in H. apply H. eapply list_elem_of_lookup_2, Hl.
Qed.

Lemma sound_replace s b idx e' :
  Double.sound s -> (b <? 0)%float = false -> Double.soundEntry e' ->
  Double.sound (Double.withBalanceEntries s b (<[idx := e']> (Double.entries s))).
Proof.
  intros [_ H] Hb He. split; [exact Hb|]. simpl. apply Forall_insert; assumption.
Qed.

Lemma not_le0_unsigned (x : float) : (x <=? 0)%float = false -> Double.unsigned x.
Proof.
  unfold Double.unsigned. intros H. rewrite FloatAxioms.leb_spec, Prim2SF_zero in H.
  destruct (Prim2SF x) as [s|s| |s m e]; by_kind.
Qed.

Lemma addEntry_sound data s :
  Double.isFinitePos (Double.NewEntry.entryMarketCap data) = true ->
  Double.isFinitePos (Double.NewEntry.solInvested data) = true ->
  Double.sound s -> Double.sound (fst (Double.addEntry data s)).
Proof.
  intros Hm Ha Hs. unfold Double.addEntry.
  destruct (_ <? _)%float eqn:G; simpl; [exact Hs|].
  destruct Hs as [Hb He]. split; simpl.
  - apply sub_ge_not_neg, G.
  - constructor; [|exact He].
    split; simpl; apply pos_unsigned, isFinitePos_pos; assumption.
Qed.

Lemma updateCurrentMcap_sound i mcap s :
  Double.sound s -> Double.sound (fst (Double.updateCurrentMcap i mcap s)).
Proof.
  intros Hs. unfold Double.updateCurrentMcap.
  destruct (Double.findIndex _ _) as [[idx e]|] eqn:Hf; simpl; [|exact Hs].
  apply sound_replace; [exact Hs|apply Hs|].
  exact (sound_entry _ _ _ _ Hs Hf).
Qed.

Lemma edited_mark_unsigned e (mc : option float) :
  Double.unsigned (Double.entryMarketCap e) ->
  Double.unsigned match mc with
                  | Some mc => if Double.isFinitePos mc then mc
                               else Double.entryMarketCap e
                  | None => Double.entryMarketCap e
                  end.
Proof.
  intros H. destruct mc as [mc|]; [|exact H].
  destruct (Double.isFinitePos mc) eqn:P; [|exact H].
  apply pos_unsigned, isFinitePos_pos, P.
Qed.

Lemma editEntry_sound i updates s :
  Double.sound s -> Double.sound (fst (Double.editEntry i updates s)).
Proof.
  intros Hs. unfold Double.editEntry.
  destruct (Double.findIndex _ _) as [[idx e]|] eqn:Hf; simpl; [|exact Hs].
  destruct (Double.isOpen e); simpl; [|exact Hs].
  destruct (sound_entry _ _ _ _ Hs Hf) as [Hm Hv].
  destruct (Double.revisedAmount updates) as [inv|].
  - destruct (_ && _) eqn:G; simpl; [exact Hs|].
    apply sound_replace; [exact Hs| |].
    + apply andb_false_iff in G as [G|G].
      * apply sub_nonpos_not_neg; [exact G|apply Hs].
      * apply sub_ge_not_neg, G.
    + split; simpl; [apply edited_mark_unsigned, Hm|apply Math_max_unsigned].
  - simpl. apply sound_replace; [exact Hs|apply Hs|].
    split; simpl; [apply edited_mark_unsigned, Hm|exact Hv].
Qed.

Lemma buyMore_sound i m amt s :
  Double.isFinitePos m = true -> Double.isFinitePos amt = true ->
  Double.sound s -> Double.sound (fst (Double.buyMore i m amt s)).
Proof.
  intros Pm Pa Hs. unfold Double.buyMore.
  destruct (Double.findIndex _ _) as [[idx e]|] eqn:Hf; simpl; [|exact Hs].
  destruct (Double.isOpen e); simpl; [|exact Hs].
  destruct (_ <? _)%float eqn:G; simpl; [exact Hs|].
  destruct (sound_entry _ _ _ _ Hs Hf) as [Hm Hv].
  pose proof (pos_unsigned _ (isFinitePos_pos _ Pm)) as Um.
  pose proof (pos_unsigned _ (isFinitePos_pos _ Pa)) as Ua.
  apply sound_replace; [exact Hs|apply sub_ge_not_neg, G|].
  split; simpl.
  - unfold Double.newAverage. apply unsigned_div.
    + apply unsigned_add; apply unsigned_mul; assumption.
    + apply unsigned_add; assumption.
  - apply unsigned_add; assumption.
Qed.

Lemma sellReturned_unsigned e m amt :
  Double.unsigned (Double.entryMarketCap e) -> Double.isFinitePos m = true ->
  (amt <=? 0)%float = false ->
  Double.unsigned (Double.sellReturned e m amt).
Proof.
  intros Hm Pm Ha. unfold Double.sellReturned.
  apply unsigned_mul; [apply not_le0_unsigned, Ha|].
  apply unsigned_div; [|exact Hm]. apply pos_unsigned, isFinitePos_pos, Pm.
Qed.

Lemma partialSell_sound i m amt nowIso s :
  Double.isFinitePos m = true ->
  Double.sound s -> Double.sound (fst (Double.partialSell i m amt nowIso s)).
Proof.
  intros Pm Hs. unfold Double.partialSell.
  destruct (Double.findIndex _ _) as [[idx e]|] eqn:Hf; simpl; [|exact Hs].
  destruct (Double.isOpen e); simpl; [|exact Hs].
  destruct (_ || _) eqn:G; simpl; [exact Hs|].
  apply orb_false_iff in G as [G1 G2].
  destruct (sound_entry _ _ _ _ Hs Hf) as [Hm Hv].
  apply sound_replace; [exact Hs| |].
  - apply add_not_neg; [apply Hs|]. apply sellReturned_unsigned; assumption.
  - destruct (Double.solInvested e - amt <=? 0.0000001)%float;
      split; simpl; try exact Hm.
    + exact unsigned_zero.
    + apply sub_ge_unsigned; assumption.
Qed.

Lemma adjustBalance_sound delta s :
  Double.sound s -> Double.sound (fst (Double.adjustBalance delta s)).
Proof.
  intros Hs. unfold Double.adjustBalance.
  destruct (_ <? _)%float eqn:G; simpl; [exact Hs|].
  split; [exact G|apply Hs].
Qed.

Lemma Double_step_sound a s :
  Double.validArgs a -> Double.sound s -> Double.sound (Double.step a s).
Proof.
  unfold Double.step. intros Hv Hs. destruct a; simpl in *.
  - split; [|constructor]. simpl.
    apply unsigned_not_neg, pos_unsigned, isFinitePos_pos, Hv.
  - destruct Hv. apply addEntry_sound; assumption.
  - apply updateCurrentMcap_sound, Hs.
  - apply editEntry_sound, Hs.
  - destruct Hv. apply buyMore_sound; assumption.
  - apply partialSell_sound; assumption.
  - apply adjustBalance_sound, Hs.
  - split; [reflexivity|constructor].
  - unfold Double.pushHistoryPoint. destruct (Double.historyUnchanged s); exact Hs.
  - exact Hs.
Qed.

Lemma Double_reachable_sound s : Double.reachable s -> Double.sound s.
Proof.
  induction 1 as [|a s _ IH Hv].
  - split; [reflexivity|constructor].
  - apply Double_step_sound; assumption.
Qed.

Lemma Double_runAll_reachable acts s :
  Forall Double.validArgs acts -> Double.reachable s ->
  Double.reachable (Double.runAll acts s).
Proof.
  unfold Double.runAll. intros H. revert s.
  induction H as [|a acts Ha _ IH]; intros s Hs; simpl; [exact Hs|].
  apply IH. constructor; assumption.
Qed.

(* ------------------------------------------------------------------------- *)
(** ** Double precision: the properties of the specification that depend on
       the arithmetic *)

Lemma tenthActions_valid : Forall Double.validArgs Double.tenthActions.
Proof. repeat constructor. Qed.

Lemma tenStart_reachable : Double.reachable Double.tenStart.
Proof.
  apply Double_runAll_reachable; [repeat constructor|apply Double.reach_init].
Qed.

Lemma tenthOpened_reachable : Double.reachable Double.tenthOpened.
Proof.
  apply Double_runAll_reachable; [exact tenthActions_valid|apply Double.reach_init].
Qed.

Lemma twoOpened_reachable : Double.reachable Double.twoOpened.
Proof.
  apply Double_runAll_reachable; [repeat constructor|apply Double.reach_init].
Qed.

Lemma overflowState_reachable : Double.reachable Double.overflowState.
Proof.
  apply Double_runAll_reachable; [repeat constructor|apply Double.reach_init].
Qed.

Lemma infiniteBalance_reachable : Double.reachable Double.infiniteBalance.
Proof.
  apply Double_runAll_reachable; [repeat constructor|apply Double.reach_init].
Qed.

(** C4 (as amended).  An applied [addEntry] or [buyMore] sets the balance to
    the double [balance - amount], and an applied [partialSell] sets it to the
    double [balance + sellAmountSOL * (sellMcap / entryMarketCap)], each
    operation rounded as the code performs it. *)
Theorem cash_moves_by_rounded_amount :
  forall a s, Double.outcome a s = Applied ->
    match a with
    | Double.AddEntry data =>
        Double.balance (Double.step a s)
        = (Double.balance s - Double.NewEntry.solInvested data)%float
    | Double.BuyMore _ _ amt =>
        Double.balance (Double.step a s) = (Double.balance s - amt)%float
    | Double.PartialSell i m amt _ =>
        exists idx e,
          Double.findIndex (Double.hasId i) (Double.entries s) = Some (idx, e)
          /\ Double.status e = open
          /\ Double.balance (Double.step a s)
             = (Double.balance s + amt * (m / Double.entryMarketCap e))%float
    | _ => True
    end.
Proof.
  unfold Double.outcome, Double.step. intros a s.
  destruct a; simpl; try (intros; exact I).
  - unfold Double.addEntry.
    destruct (_ <? _)%float; simpl; [discriminate|]. reflexivity.
  - unfold Double.buyMore.
    destruct (Double.findIndex _ _) as [[idx e]|]; simpl; [|discriminate].
    destruct (Double.isOpen e); simpl; [|discriminate].
    destruct (_ <? _)%float; simpl; [discriminate|]. reflexivity.
  - unfold Double.partialSell.
    destruct (Double.findIndex _ _) as [[idx e]|]; simpl; [|discriminate].
    destruct (Double.isOpen e) eqn:Ho; simpl; [|discriminate].
    destruct (_ || _); simpl; [discriminate|]. intros _.
    exists idx, e. split; [reflexivity|].
    split; [apply Double_isOpen_status, Ho|reflexivity].
Qed.

Lemma cash_moves_by_rounded_amount_witness :
  (Double.outcome (Double.AddEntry (Double.NewEntry.mk "X" 1000 0.1)) Double.tenStart
   = Applied
   /\ Double.balance
        (Double.step (Double.AddEntry (Double.NewEntry.mk "X" 1000 0.1)) Double.tenStart)
      = (Double.balance Double.tenStart - 0.1)%float)
  /\ (Double.outcome (Double.BuyMore "1" 1000 0.2) Double.tenthOpened = Applied
      /\ Double.balance (Double.step (Double.BuyMore "1" 1000 0.2) Double.tenthOpened)
         = (Double.balance Double.tenthOpened - 0.2)%float)
  /\ (Double.outcome (Double.PartialSell "1" 3000 0.1 "2025-01-01T00:00:00.000Z")
                     Double.tenthOpened = Applied
      /\ exists idx e,
           Double.findIndex (Double.hasId "1") (Double.entries Double.tenthOpened)
           = Some (idx, e)
           /\ Double.status e = open
           /\ Double.balance
                (Double.step (Double.PartialSell "1" 3000 0.1 "2025-01-01T00:00:00.000Z")
                             Double.tenthOpened)
              = (Double.balance Double.tenthOpened
                 + 0.1 * (3000 / Double.entryMarketCap e))%float).
Proof.
  split; [|split].
  - split; [reflexivity|].
    apply (cash_moves_by_rounded_amount
             (Double.AddEntry (Double.NewEntry.mk "X" 1000 0.1)) Double.tenStart).
    reflexivity.
  - split; [reflexivity|].
    apply (cash_moves_by_rounded_amount (Double.BuyMore "1" 1000 0.2) Double.tenthOpened).
    reflexivity.
  - split; [reflexivity|].
    apply (cash_moves_by_rounded_amount
             (Double.PartialSell "1" 3000 0.1 "2025-01-01T00:00:00.000Z")
             Double.tenthOpened).
    reflexivity.
Defined.

(** C4, as stated, fails.  With a balance of 10, opening a position of 0.1 is
    applied and leaves [balance_before - balance_after] different from 0.1;
    with a balance of 9.9, opening one of 1e-16 is applied and does not lower
    the balance; and selling 0.1 bought at mark 1000 at mark 3000 is applied
    and leaves [balance_after - balance_before] different from
    [0.1 * 3000 / 1000]. *)
Lemma cash_conservation_fails_in_doubles :
  Double.reachable Double.tenStart /\ Double.reachable Double.tenthOpened
  /\ Double.outcome (Double.AddEntry (Double.NewEntry.mk "X" 1000 0.1)) Double.tenStart
     = Applied
  /\ (Double.balance Double.tenStart
      - Double.balance
          (Double.step (Double.AddEntry (Double.NewEntry.mk "X" 1000 0.1)) Double.tenStart)
      =? 0.1)%float = false
  /\ Double.outcome (Double.AddEntry (Double.NewEntry.mk "Y" 1000 1e-16))
                    Double.tenthOpened = Applied
  /\ (Double.balance
        (Double.step (Double.AddEntry (Double.NewEntry.mk "Y" 1000 1e-16))
                     Double.tenthOpened)
      <? Double.balance Double.tenthOpened)%float = false
  /\ Double.outcome (Double.PartialSell "1" 3000 0.1 "2025-01-01T00:00:00.000Z")
                    Double.tenthOpened = Applied
  /\ (Double.balance
        (Double.step (Double.PartialSell "1" 3000 0.1 "2025-01-01T00:00:00.000Z")
                     Double.tenthOpened)
      - Double.balance Double.tenthOpened
      =? 0.1 * 3000 / 1000)%float = false.
Proof.
  split; [exact tenStart_reachable|]. split; [exact tenthOpened_reachable|].
  repeat split; vm_compute; reflexivity.
Qed.




(** C7 (as amended).  In every state reached with the arguments the forms
    accept the balance is not below 0; and every action with such arguments
    keeps it so from any state whose balance is not below 0 and whose
    positions have no negative average entry mark or principal. *)
Theorem balance_never_below_zero :
  forall s,
    (Double.reachable s -> (Double.balance s <? 0)%float = false)
    /\ (forall a, Double.validArgs a -> Double.sound s ->
        (Double.balance (Double.step a s) <? 0)%float = false).
Proof.
  intros s. split.
  - intros Hs. apply (Double_reachable_sound s Hs).
  - intros a Hv Hs. apply (Double_step_sound a s Hv Hs).
Qed.

Lemma balance_never_below_zero_witness :
  Double.reachable Double.tenthOpened
  /\ (Double.balance Double.tenthOpened <? 0)%float = false
  /\ Double.validArgs (Double.PartialSell "1" 3000 0.1 "2025-01-01T00:00:00.000Z")
  /\ Double.sound Double.tenthOpened
  /\ (Double.balance
        (Double.step (Double.PartialSell "1" 3000 0.1 "2025-01-01T00:00:00.000Z")
                     Double.tenthOpened) <? 0)%float = false.
Proof.
  destruct (balance_never_below_zero Double.tenthOpened) as [Hr Hstep].
  assert (Hv : Double.validArgs
                 (Double.PartialSell "1" 3000 0.1 "2025-01-01T00:00:00.000Z"))
    by reflexivity.
  pose proof (Double_reachable_sound _ tenthOpened_reachable) as Hs.
  split; [exact tenthOpened_reachable|].
  split; [exact (Hr tenthOpened_reachable)|].
  split; [exact Hv|]. split; [exact Hs|].
  exact (Hstep _ Hv Hs).
Defined.

(** C7, as stated, fails.  With finite positive arguments near the largest
    double the sums overflow, the average entry mark of the position becomes
    [NaN] and so does the balance after a sell: [balance >= 0] is false. *)
Lemma overflow_makes_balance_NaN :
  Forall Double.validArgs Double.overflowActions
  /\ Double.reachable Double.overflowState
  /\ is_nan (Double.balance Double.overflowState) = true
  /\ (0 <=? Double.balance Double.overflowState)%float = false.
Proof.
  split; [repeat constructor|]. split; [exact overflowState_reachable|].
  split; reflexivity.
Qed.

Lemma Double_historyUnchanged_appendPoint now s :
  Double.isFinite (Double.balance s) = true ->
  Double.isFinite (Double.openValueOf (Double.entries s)) = true ->
  Double.historyUnchanged (Double.appendPoint now s) = true.
Proof.
  intros Hb Ho. unfold Double.historyUnchanged, Double.appendPoint.
  cbn [Double.history Double.balance Double.entries from_option].
  unfold Datatypes.id. rewrite last_snoc.
  cbn [Double.HistoryPoint.balance Double.HistoryPoint.openValue].
  unfold Double.Math_abs.
  rewrite (sub_self_small _ Hb), (sub_self_small _ Ho). reflexivity.
Qed.

(** C8 (as amended).  On a state whose balance and open value are finite,
    [pushHistoryPoint] appends at most one point, and a second call right
    after it appends nothing: the last point of the history then agrees with
    the balance and the open value of the state within [1e-9]. *)
Theorem pushHistoryPoint_idempotent_when_finite :
  forall s t1 t2,
    Double.isFinite (Double.balance s) = true ->
    Double.isFinite (Double.openValueOf (Double.entries s)) = true ->
    Double.pushHistoryPoint t2 (Double.pushHistoryPoint t1 s)
    = Double.pushHistoryPoint t1 s
    /\ (Double.pushHistoryPoint t1 s = s
        \/ Double.history (Double.pushHistoryPoint t1 s)
           = Some (default [] (Double.history s)
                   ++ [Double.HistoryPoint.mk t1 (Double.balance s)
                         (Double.openValueOf (Double.entries s))]))
    /\ exists l,
         last (default [] (Double.history (Double.pushHistoryPoint t1 s))) = Some l
         /\ (Double.Math_abs
               (Double.HistoryPoint.balance l
                - Double.balance (Double.pushHistoryPoint t1 s)) <? 1e-9)%float = true
         /\ (Double.Math_abs
               (Double.HistoryPoint.openValue l
                - Double.openValueOf (Double.entries (Double.pushHistoryPoint t1 s)))
             <? 1e-9)%float = true.
Proof.
  intros s t1 t2 Hb Ho.
  assert (Hs1 : Double.historyUnchanged (Double.pushHistoryPoint t1 s) = true).
  { unfold Double.pushHistoryPoint.
    destruct (Double.historyUnchanged s) eqn:T;
      [exact T|apply Double_historyUnchanged_appendPoint; assumption]. }
  split; [unfold Double.pushHistoryPoint at 1; rewrite Hs1; reflexivity|].
  split.
  - unfold Double.pushHistoryPoint.
    destruct (Double.historyUnchanged s); [left|right]; reflexivity.
  - unfold Double.historyUnchanged in Hs1.
    destruct (last _) as [l|]; [|discriminate].
    apply andb_prop in Hs1 as [H1 H2]. exists l. auto.
Qed.

Lemma pushHistoryPoint_idempotent_when_finite_witness :
  Double.isFinite (Double.balance Double.tenthOpened) = true
  /\ Double.isFinite (Double.openValueOf (Double.entries Double.tenthOpened)) = true
  /\ Double.pushHistoryPoint 2000 (Double.pushHistoryPoint 1000 Double.tenthOpened)
     = Double.pushHistoryPoint 1000 Double.tenthOpened
  /\ (Double.pushHistoryPoint 1000 Double.tenthOpened = Double.tenthOpened
      \/ Double.history (Double.pushHistoryPoint 1000 Double.tenthOpened)
         = Some (default [] (Double.history Double.tenthOpened)
                 ++ [Double.HistoryPoint.mk 1000 (Double.balance Double.tenthOpened)
                       (Double.openValueOf (Double.entries Double.tenthOpened))]))
  /\ exists l,
       last (default [] (Double.history (Double.pushHistoryPoint 1000 Double.tenthOpened)))
       = Some l
       /\ (Double.Math_abs
             (Double.HistoryPoint.balance l
              - Double.balance (Double.pushHistoryPoint 1000 Double.tenthOpened))
           <? 1e-9)%float = true
       /\ (Double.Math_abs
             (Double.HistoryPoint.openValue l
              - Double.openValueOf
                  (Double.entries (Double.pushHistoryPoint 1000 Double.tenthOpened)))
           <? 1e-9)%float = true.
Proof.
  split; [reflexivity|]. split; [reflexivity|].
  apply (pushHistoryPoint_idempotent_when_finite Double.tenthOpened 1000 2000);
    reflexivity.
Defined.

(** C8, as stated, fails.  With a starting balance of 1e308 raised by 1e308
    the balance is [Infinity]; the point recorded for it is never within
    [1e-9] of it ([Infinity - Infinity] is [NaN]), so the second call appends
    a second point. *)
Lemma pushHistoryPoint_appends_twice :
  Double.reachable Double.infiniteBalance
  /\ Double.history (Double.pushHistoryPoint 1000 Double.infiniteBalance)
     = Some [Double.HistoryPoint.mk 1000 infinity 0]
  /\ Double.history
       (Double.pushHistoryPoint 2000 (Double.pushHistoryPoint 1000 Double.infiniteBalance))
     = Some [Double.HistoryPoint.mk 1000 infinity 0;
             Double.HistoryPoint.mk 2000 infinity 0]
  /\ Double.pushHistoryPoint 2000 (Double.pushHistoryPoint 1000 Double.infiniteBalance)
     <> Double.pushHistoryPoint 1000 Double.infiniteBalance.
Proof.
  split; [exact infiniteBalance_reachable|].
  split; [reflexivity|]. split; [reflexivity|].
  intros H. apply (f_equal Double.history) in H.
  vm_compute in H. discriminate H.
Qed.

(** C10 (as amended).  Revising an open position that holds [v >= 0] to a
    finite negative [newValue] is applied, leaves the position open with
    [solInvested = 0], and sets the balance to the double
    [balance - (newValue - v)]; and the credit can exceed the principal: with
    a balance of 8 and [v = 2], revising to [-3] raises the balance by more
    than 2. *)
Theorem negative_revision_credits_balance :
  (forall s i updates idx e newValue,
     Double.findIndex (Double.hasId i) (Double.entries s) = Some (idx, e) ->
     Double.status e = open ->
     (0 <=? Double.solInvested e)%float = true ->
     Double.isFinite newValue = true ->
     (newValue <? 0)%float = true ->
     Double.Updates.solInvested updates = Some newValue ->
     Double.outcome (Double.EditEntry i updates) s = Applied
     /\ (exists e',
           Double.entries (Double.step (Double.EditEntry i updates) s) !! idx = Some e'
           /\ Double.solInvested e' = 0%float /\ Double.status e' = open)
     /\ Double.balance (Double.step (Double.EditEntry i updates) s)
        = (Double.balance s - (newValue - Double.solInvested e))%float)
  /\ (Double.reachable Double.twoOpened
      /\ exists e,
           Double.entries Double.twoOpened = [e]
           /\ Double.status e = open /\ Double.solInvested e = 2%float
           /\ (Double.solInvested e
               <? Double.balance
                    (Double.step
                       (Double.EditEntry "1"
                          (Double.Updates.mk None None (Some (-3)%float)))
                       Double.twoOpened)
                  - Double.balance Double.twoOpened)%float = true).
Proof.
  split.
  - intros s i updates idx e newValue Hf Ho Hv Hfin Hneg Hu.
    unfold Double.outcome, Double.step. simpl. unfold Double.editEntry. rewrite Hf.
    apply Double_isOpen_status in Ho as Ho'. rewrite Ho'. simpl.
    unfold Double.revisedAmount. rewrite Hu, Hfin.
    rewrite (neg_sub_not_pos _ _ Hneg Hv). simpl.
    split; [reflexivity|]. split; [|reflexivity].
    eexists. split.
    + apply list_lookup_insert_eq. apply Double_findIndex_Some in Hf as [Hl _].
      eapply lookup_lt_Some, Hl.
    + simpl. split; [apply Math_max_neg, Hneg|exact Ho].
  - split; [exact twoOpened_reachable|].
    eexists. split; [vm_compute; reflexivity|]. repeat split; reflexivity.
Qed.

Lemma negative_revision_credits_balance_witness :
  exists e,
    Double.findIndex (Double.hasId "1") (Double.entries Double.twoOpened)
    = Some (0%nat, e)
    /\ Double.status e = open
    /\ (0 <=? Double.solInvested e)%float = true
    /\ Double.isFinite (-3) = true
    /\ (-3 <? 0)%float = true
    /\ Double.outcome
         (Double.EditEntry "1" (Double.Updates.mk None None (Some (-3)%float)))
         Double.twoOpened = Applied
    /\ (exists e',
          Double.entries
            (Double.step
               (Double.EditEntry "1" (Double.Updates.mk None None (Some (-3)%float)))
               Double.twoOpened) !! 0%nat = Some e'
          /\ Double.solInvested e' = 0%float /\ Double.status e' = open)
    /\ Double.balance
         (Double.step
            (Double.EditEntry "1" (Double.Updates.mk None None (Some (-3)%float)))
            Double.twoOpened)
       = (Double.balance Double.twoOpened - (-3 - Double.solInvested e))%float.
Proof.
  eexists. split; [vm_compute; reflexivity|].
  split; [reflexivity|]. split; [reflexivity|]. split; [reflexivity|].
  split; [reflexivity|].
  apply (proj1 negative_revision_credits_balance Double.twoOpened "1"%string
           (Double.Updates.mk None None (Some (-3)%float)) 0%nat _ (-3)%float);
    reflexivity.
Defined.

(** C10, as stated, fails.  With a balance of 8 and a position that holds
    [v = 2], revising the position to [-1e-20] is applied and raises the
    balance to 10, by exactly 2: the credit is not strictly greater than
    [v]. *)
Lemma negative_revision_credits_no_more :
  Double.reachable Double.twoOpened
  /\ Double.balance Double.twoOpened = 8%float
  /\ Double.outcome
       (Double.EditEntry "1" (Double.Updates.mk None None (Some (-1e-20)%float)))
       Double.twoOpened = Applied
  /\ Double.balance
       (Double.step
          (Double.EditEntry "1" (Double.Updates.mk None None (Some (-1e-20)%float)))
          Double.twoOpened) = 10%float
  /\ exists e,
       Double.entries Double.twoOpened = [e]
       /\ Double.status e = open /\ Double.solInvested e = 2%float
       /\ (Double.solInvested e
           <? Double.balance
                (Double.step
                   (Double.EditEntry "1"
                      (Double.Updates.mk None None (Some (-1e-20)%float)))
                   Double.twoOpened)
              - Double.balance Double.twoOpened)%float = false.
Proof.
  split; [exact twoOpened_reachable|].
  split; [reflexivity|]. split; [reflexivity|]. split; [reflexivity|].
  eexists. split; [vm_compute; reflexivity|]. repeat split; reflexivity.
Qed.

(* ------------------------------------------------------------------------- *)
(** ** Double precision: closed positions *)

Lemma closingFigures_replace (l : list Double.Entry) idx e' :
  Forall Double.closingFigures l -> Double.closingFigures e' ->
  Forall Double.closingFigures (<[idx := e']> l).
Proof. intros H He. apply Forall_insert; assumption. Qed.

Lemma closingFigures_found p (l : list Double.Entry) idx e :
  Forall Double.closingFigures l -> Double.findIndex p l = Some (idx, e) ->
  Double.closingFigures e.
Proof.
  intros H Hf. apply Double_findIndex_Some in Hf as [Hl _].
  rewrite Forall_forall in H. apply H. eapply list_elem_of_lookup_2, Hl.
Qed.

Lemma Double_step_closingFigures a s :
  Forall Double.closingFigures (Double.entries s) ->
  Forall Double.closingFigures (Double.entries (Double.step a s)).
Proof.
  unfold Double.step. intros H. destruct a; simpl; try exact H; try constructor.
  - unfold Double.addEntry. destruct (_ <? _)%float; simpl; [exact H|].
    constructor; [|exact H]. intros K. discriminate K.
  - unfold Double.updateCurrentMcap.
    destruct (Double.findIndex _ _) as [[idx e]|] eqn:Hf; simpl; [|exact H].
    apply closingFigures_replace; [exact H|].
    exact (closingFigures_found _ _ _ _ H Hf).
  - unfold Double.editEntry.
    destruct (Double.findIndex _ _) as [[idx e]|] eqn:Hf; simpl; [|exact H].
    destruct (Double.isOpen e) eqn:Ho; simpl; [|exact H].
    apply Double_isOpen_status in Ho.
    destruct (Double.revisedAmount updates) as [inv|].
    + destruct (_ && _); simpl; [exact H|].
      apply closingFigures_replace; [exact H|]. intros K. simpl in K. congruence.
    + simpl. apply closingFigures_replace; [exact H|].
      intros K. simpl in K. congruence.
  - unfold Double.buyMore.
    destruct (Double.findIndex _ _) as [[idx e]|] eqn:Hf; simpl; [|exact H].
    destruct (Double.isOpen e) eqn:Ho; simpl; [|exact H].
    apply Double_isOpen_status in Ho.
    destruct (_ <? _)%float; simpl; [exact H|].
    apply closingFigures_replace; [exact H|]. intros K. simpl in K. congruence.
  - unfold Double.partialSell.
    destruct (Double.findIndex _ _) as [[idx e]|] eqn:Hf; simpl; [|exact H].
    destruct (Double.isOpen e) eqn:Ho; simpl; [|exact H].
    apply Double_isOpen_status in Ho.
    destruct (_ || _); simpl; [exact H|].
    apply closingFigures_replace; [exact H|].
    destruct (Double.solInvested e - sellAmountSOL <=? 0.0000001)%float.
    + intros _. simpl. repeat split; discriminate.
    + intros K. simpl in K. congruence.
  - unfold Double.adjustBalance. destruct (_ <? _)%float; exact H.
  - unfold Double.pushHistoryPoint. destruct (Double.historyUnchanged s); exact H.
Qed.

Lemma tenthSold_reachable : Double.reachable Double.tenthSold.
Proof.
  apply Double.reach_step; [exact tenthOpened_reachable|]. reflexivity.
Qed.

(** X3.  A closed position carries its closing figures for good: in every
    reachable state a sold position holds exactly 0, its [pnl] is its
    realized P/L, its [solReturned] is the total returned by its sells, its
    [pnlPercent] is [pnl / cumulativeBuySOL * 100] as doubles compute it (0
    when nothing was bought), and it has a sell mark and a closing time. *)
Theorem sold_position_carries_closing_figures :
  forall s, Double.reachable s ->
  forall e, e ∈ Double.entries s -> Double.status e = sold ->
    Double.solInvested e = 0%float
    /\ Double.pnl e = Some (default 0%float (Double.realizedPnl e))
    /\ Double.solReturned e = Double.cumulativeSellReturnedSOL e
    /\ Double.pnlPercent e
       = Some (if (0 <? default 0 (Double.cumulativeBuySOL e))%float
               then (default 0 (Double.realizedPnl e)
                     / default 0 (Double.cumulativeBuySOL e) * 100)%float
               else 0%float)
    /\ Double.soldAt e <> None
    /\ Double.sellMarketCap e <> None.
Proof.
  intros s Hs.
  assert (H : Forall Double.closingFigures (Double.entries s)).
  { induction Hs as [|a s _ IH _]; [constructor|].
    apply Double_step_closingFigures, IH. }
  intros e He Hsold. rewrite Forall_forall in H. exact (H e He Hsold).
Qed.

Lemma sold_position_carries_closing_figures_witness :
  exists e,
    Double.entries Double.tenthSold = [e] /\ Double.status e = sold
    /\ Double.solInvested e = 0%float
    /\ Double.pnl e = Some (default 0%float (Double.realizedPnl e))
    /\ Double.solReturned e = Double.cumulativeSellReturnedSOL e
    /\ Double.pnlPercent e
       = Some (if (0 <? default 0 (Double.cumulativeBuySOL e))%float
               then (default 0 (Double.realizedPnl e)
                     / default 0 (Double.cumulativeBuySOL e) * 100)%float
               else 0%float)
    /\ Double.soldAt e <> None
    /\ Double.sellMarketCap e <> None.
Proof.
  eexists. split; [vm_compute; reflexivity|]. split; [reflexivity|].
  apply (sold_position_carries_closing_figures Double.tenthSold tenthSold_reachable).
  - vm_compute. left.
  - reflexivity.
Defined.

Lemma pos_not_le0 (x : float) : (0 <? x)%float = true -> (x <=? 0)%float = false.
Proof.
  intros H. rewrite FloatAxioms.ltb_spec, Prim2SF_zero in H.
  rewrite FloatAxioms.leb_spec, Prim2SF_zero.
  destruct (Prim2SF x) as [s|s| |s m e]; by_kind.
Qed.

Lemma not_lt_self (x : float) : (x <? x)%float = false.
Proof.
  rewrite FloatAxioms.ltb_spec.
  destruct (Prim2SF x) as [s|s| |s m e]; try by_kind.
  unfold SFltb, SFcompare. rewrite Z.compare_refl.
  change (PosDef.Pos.compare_cont Eq m m) with (Pos.compare m m).
  rewrite Pos.compare_refl. destruct s; reflexivity.
Qed.

(** What is left of a finite principal sold whole is within the closing
    tolerance. *)
Lemma sub_self_closes (x : float) :
  is_finite x = true -> (x - x <=? 0.0000001)%float = true.
Proof.
  intros H. rewrite FloatAxioms.leb_spec, FloatAxioms.sub_spec.
  assert (T : exists mt et, Prim2SF 0.0000001 = S754_finite false mt et)
    by (eexists; eexists; vm_compute; reflexivity).
  destruct T as (mt & et & ->).
  destruct (is_finite_spec x H) as [[s ->] | (s & m & e & ->)].
  - destruct s; reflexivity.
  - unfold SF64sub, SFsub. rewrite Z.sub_diag. reflexivity.
Qed.

(** X8.  Selling the whole principal closes the position: for an open
    position whose principal is finite and positive, [partialSell] of exactly
    that principal is applied at any mark and leaves the position sold with
    nothing invested, stamped with the mark and the time of the sell. *)
Theorem selling_the_whole_principal_closes :
  forall s i m nowIso idx e,
    Double.findIndex (Double.hasId i) (Double.entries s) = Some (idx, e) ->
    Double.status e = open ->
    Double.isFinitePos (Double.solInvested e) = true ->
    Double.outcome (Double.PartialSell i m (Double.solInvested e) nowIso) s = Applied
    /\ exists e',
         Double.entries (Double.step (Double.PartialSell i m (Double.solInvested e) nowIso) s)
           !! idx = Some e'
         /\ Double.status e' = sold /\ Double.solInvested e' = 0%float
         /\ Double.sellMarketCap e' = Some m /\ Double.soldAt e' = Some nowIso
         /\ Double.id e' = Double.id e.
Proof.
  intros s i m nowIso idx e Hf Ho Hv.
  unfold Double.isFinitePos in Hv. apply andb_prop in Hv as [Hfin Hpos].
  apply Double_isOpen_status in Ho.
  unfold Double.outcome, Double.step. simpl. unfold Double.partialSell.
  rewrite Hf, Ho. simpl.
  rewrite (pos_not_le0 _ Hpos), not_lt_self. simpl.
  rewrite (sub_self_closes _ Hfin).
  split; [reflexivity|]. eexists. split.
  - apply list_lookup_insert_eq. apply Double_findIndex_Some in Hf as [Hl _].
    eapply lookup_lt_Some, Hl.
  - simpl. repeat split; reflexivity.
Qed.

Lemma selling_the_whole_principal_closes_witness :
  exists e,
    Double.findIndex (Double.hasId "1") (Double.entries Double.tenthBought)
    = Some (0%nat, e)
    /\ Double.status e = open
    /\ Double.isFinitePos (Double.solInvested e) = true
    /\ Double.outcome
         (Double.PartialSell "1" 3000 (Double.solInvested e) "2025-01-01T00:00:00.000Z")
         Double.tenthBought = Applied
    /\ exists e',
         Double.entries
           (Double.step
              (Double.PartialSell "1" 3000 (Double.solInvested e)
                                  "2025-01-01T00:00:00.000Z") Double.tenthBought)
           !! 0%nat = Some e'
         /\ Double.status e' = sold /\ Double.solInvested e' = 0%float
         /\ Double.sellMarketCap e' = Some 3000%float
         /\ Double.soldAt e' = Some "2025-01-01T00:00:00.000Z"%string
         /\ Double.id e' = Double.id e.
Proof.
  eexists. split; [vm_compute; reflexivity|]. split; [reflexivity|].
  split; [reflexivity|].
  apply (selling_the_whole_principal_closes Double.tenthBought "1" 3000
           "2025-01-01T00:00:00.000Z" 0%nat);
    reflexivity.
Defined.
